(** * Form validation of [script.js]: a shallow embedding and its properties

    The script wires seven validators to the sign-up form of a static
    page.  This development embeds the part of JavaScript and of the DOM
    the validators rely on (strings of UTF-16 code units, [trim],
    [Number], regular expressions, elements looked up by id), transcribes
    the validators and the submit handler, and proves what the
    specification says about them. *)

From Stdlib Require Import ZArith NArith List String Ascii Lia Bool.
From Stdlib Require Import Floats.SpecFloat.
From stdpp Require Import base list.

Set Implicit Arguments.

(** ** JavaScript strings *)

(** A JavaScript string is a sequence of UTF-16 code units.  None of the
    regular expressions of the script carries the [u] flag, so all of
    them work on code units, as [trim] and [length] do. *)
Definition JSString := list N.

(** ASCII literals of the script. *)
Definition u (s : string) : JSString := map N_of_ascii (list_ascii_of_string s).
Arguments u s%_string.

Fixpoint str_eqb (a b : JSString) : bool :=
  match a, b with
  | [], [] => true
  | x :: a', y :: b' => N.eqb x y && str_eqb a' b'
  | _, _ => false
  end.

(** One-character literals, as code units. *)
Definition ch (a : ascii) : N := N_of_ascii a.
Arguments ch a%_char.

Definition in_range (lo hi c : N) : bool := (N.leb lo c && N.leb c hi)%bool.

(** WhiteSpace and LineTerminator of ECMA-262: what [\s] matches and what
    [trim] and [Number] strip. *)
Definition is_line_terminator (c : N) : bool :=
  (N.eqb c 10 || N.eqb c 13 || N.eqb c 8232 || N.eqb c 8233)%bool.

Definition is_white_space (c : N) : bool :=
  (in_range 9 13 c || N.eqb c 32 || N.eqb c 160 || N.eqb c 5760
   || in_range 8192 8202 c || N.eqb c 8232 || N.eqb c 8233 || N.eqb c 8239
   || N.eqb c 8287 || N.eqb c 12288 || N.eqb c 65279)%bool.

Definition is_digit (c : N) : bool := in_range (ch "0") (ch "9") c.

Definition is_letter (c : N) : bool :=
  (in_range (ch "A") (ch "Z") c || in_range (ch "a") (ch "z") c)%bool.

(** [\w] *)
Definition is_word (c : N) : bool :=
  (is_letter c || is_digit c || N.eqb c (ch "_"))%bool.

(** [String.prototype.trim] *)
Fixpoint trimStart (s : JSString) : JSString :=
  match s with
  | c :: s' => if is_white_space c then trimStart s' else s
  | [] => []
  end.

Definition trimEnd (s : JSString) : JSString := rev (trimStart (rev s)).

Definition trim (s : JSString) : JSString := trimEnd (trimStart s).

(** ** JavaScript numbers and [Number(string)] *)

(** A Number is an IEEE 754 binary64 value: [spec_float] at precision 53
    and maximal exponent 1024. *)
Definition prec64 : Z := 53.
Definition emax64 : Z := 1024.

(** The Number a non-negative integer literal of the script denotes. *)
Definition num (z : Z) : spec_float := binary_normalize prec64 emax64 z 0 false.

(** The binary64 nearest to [(-1)^neg * n / d], ties to even. *)
Definition round_ratio (neg : bool) (n d : positive) : spec_float :=
  let '(q, e, l) := SFdiv_core_binary prec64 emax64 (Zpos n) 0 (Zpos d) 0 in
  binary_round_aux prec64 emax64 neg q e l.

(** RoundMVResult of [(-1)^neg * m * 10^e]. *)
Definition round_decimal (neg : bool) (m : N) (e : Z) : spec_float :=
  match m with
  | N0 => S754_zero neg
  | Npos p =>
      match e with
      | Zneg k => round_ratio neg p (Pos.pow 10 k)
      | _ => binary_round prec64 emax64 neg (p * Z.to_pos (10 ^ e))%positive 0
      end
  end.

Fixpoint span (p : N -> bool) (s : JSString) : JSString * JSString :=
  match s with
  | c :: s' => if p c then let '(a, b) := span p s' in (c :: a, b) else ([], s)
  | [] => ([], [])
  end.

Definition digit_value (c : N) : N :=
  if is_digit c then c - ch "0"
  else if in_range (ch "a") (ch "f") c then c - ch "a" + 10
  else c - ch "A" + 10.

(** The value of a digit string in the given radix. *)
Definition digits_value (radix : N) (ds : JSString) : N :=
  fold_left (fun acc c => acc * radix + digit_value c)%N ds 0%N.

Definition is_hex_digit (c : N) : bool :=
  (is_digit c || in_range (ch "a") (ch "f") c || in_range (ch "A") (ch "F") c)%bool.
Definition is_octal_digit (c : N) : bool := in_range (ch "0") (ch "7") c.
Definition is_binary_digit (c : N) : bool := in_range (ch "0") (ch "1") c.

(** ExponentPart, when present, must reach the end of the literal. *)
Definition parse_exponent (s : JSString) : option Z :=
  match s with
  | [] => Some 0%Z
  | c :: s1 =>
      if (N.eqb c (ch "e") || N.eqb c (ch "E"))%bool then
        let '(neg, s2) :=
          match s1 with
          | c' :: s2 =>
              if N.eqb c' (ch "-") then (true, s2)
              else if N.eqb c' (ch "+") then (false, s2)
              else (false, s1)
          | [] => (false, s1)
          end in
        match s2 with
        | [] => None
        | _ =>
            if forallb is_digit s2 then
              let v := Z.of_N (digits_value 10 s2) in
              Some (if neg then (- v)%Z else v)
            else None
        end
      else None
  end.

(** StrUnsignedDecimalLiteral other than [Infinity]: digits with an
    optional fraction and exponent, at least one digit before the
    exponent.  The result is the mantissa and the decimal exponent. *)
Definition parse_unsigned_decimal (s : JSString) : option (N * Z) :=
  let '(ip, r1) := span is_digit s in
  let '(fp, r2) :=
    match r1 with
    | c :: r => if N.eqb c (ch ".") then span is_digit r else ([], r1)
    | [] => ([], r1)
    end in
  match ip ++ fp with
  | [] => None
  | ds =>
      match parse_exponent r2 with
      | Some e => Some (digits_value 10 ds, (e - Z.of_nat (length fp))%Z)
      | None => None
      end
  end.

(** NonDecimalIntegerLiteral: [0x], [0o] or [0b] and digits, no sign. *)
Definition parse_non_decimal (s : JSString) : option N :=
  match s with
  | z :: x :: ds =>
      if negb (N.eqb z (ch "0")) then None
      else
        let lit (radix : N) (ok : N -> bool) :=
          match ds with
          | [] => None
          | _ => if forallb ok ds then Some (digits_value radix ds) else None
          end in
        if (N.eqb x (ch "x") || N.eqb x (ch "X"))%bool then lit 16%N is_hex_digit
        else if (N.eqb x (ch "o") || N.eqb x (ch "O"))%bool then lit 8%N is_octal_digit
        else if (N.eqb x (ch "b") || N.eqb x (ch "B"))%bool then lit 2%N is_binary_digit
        else None
  | _ => None
  end.

(** StringToNumber: [Number(s)] for a string [s].  White space around the
    literal is ignored, the empty literal is [+0], anything outside the
    StringNumericLiteral grammar is [NaN].  The mathematical value of a
    literal is rounded exactly, whatever its number of digits. *)
Definition Number (s : JSString) : spec_float :=
  let t := trim s in
  match t with
  | [] => S754_zero false
  | c :: t' =>
      match parse_non_decimal t with
      | Some n => round_decimal false n 0
      | None =>
          let '(neg, body) :=
            if N.eqb c (ch "-") then (true, t')
            else if N.eqb c (ch "+") then (false, t')
            else (false, t) in
          if str_eqb body (u "Infinity") then S754_infinity neg
          else
            match parse_unsigned_decimal body with
            | Some (m, e) => round_decimal neg m e
            | None => S754_nan
            end
      end
  end.

(** ToBoolean of a Number: [NaN], [+0] and [-0] are falsy. *)
Definition truthy (v : spec_float) : bool :=
  match v with
  | S754_nan | S754_zero _ => false
  | _ => true
  end.

(** The relational operators [<] and [>] on Numbers. *)
Definition num_lt (a b : spec_float) : bool := SFltb a b.
Definition num_gt (a b : spec_float) : bool := SFltb b a.
Definition num_le (a b : spec_float) : bool := SFleb a b.

(** ** Regular expressions *)

Module Regex.

(** The fragment of the pattern language the script uses.  A character
    class is its membership test on code units. *)
Inductive regex : Type :=
| Empty
| Class (p : N -> bool)
| Seq (r1 r2 : regex)
| Alt (r1 r2 : regex)
| Star (r : regex)
| Lookahead (r : regex)
| Bol
| Eol.

(** [r+], [r?], [r{n,}] and a run of terms.  [r{n,}] is [n] copies of
    [r] and then [r*]; [test] cannot tell the difference. *)
Definition Plus (r : regex) : regex := Seq r (Star r).
Definition Opt (r : regex) : regex := Alt r Empty.
Fixpoint AtLeast (n : nat) (r : regex) : regex :=
  match n with
  | O => Star r
  | S n' => Seq r (AtLeast n' r)
  end.
Definition Chr (a : ascii) : regex := Class (N.eqb (ch a)).
Arguments Chr a%_char.
Definition seq (rs : list regex) : regex := fold_right Seq Empty rs.

(** Class combinators: [[^...]], union, [.] *)
Definition cnot (p : N -> bool) : N -> bool := fun c => negb (p c).
Definition cor (p q : N -> bool) : N -> bool := fun c => (p c || q c)%bool.
Definition cis (a : ascii) : N -> bool := N.eqb (ch a).
Arguments cis a%_char.
Definition dot : N -> bool := cnot is_line_terminator.

(** The iteration of [r*] in continuation style: greedy, and an
    iteration that consumes nothing is rejected, as RepeatMatcher does.
    [fuel] bounds the number of iterations by the length of the text. *)
Fixpoint star_loop (body : JSString -> (JSString -> bool) -> bool)
    (k : JSString -> bool) (fuel : nat) (s : JSString) : bool :=
  match fuel with
  | O => k s
  | S fuel' =>
      if body s (fun s1 => if (length s1 <? length s)%nat
                           then star_loop body k fuel' s1 else false)
      then true else k s
  end.

(** The backtracking matcher: [m inp r s k] matches [r] at the suffix
    [s] of the input [inp] and hands what is left to [k]. *)
Fixpoint m (inp : JSString) (r : regex) (s : JSString)
    (k : JSString -> bool) {struct r} : bool :=
  match r with
  | Empty => k s
  | Class p =>
      match s with
      | c :: s' => if p c then k s' else false
      | [] => false
      end
  | Seq r1 r2 => m inp r1 s (fun s1 => m inp r2 s1 k)
  | Alt r1 r2 => if m inp r1 s k then true else m inp r2 s k
  | Star r1 => star_loop (m inp r1) k (length s) s
  | Lookahead r1 => if m inp r1 s (fun _ => true) then k s else false
  | Bol => if (length s =? length inp)%nat then k s else false
  | Eol =>
      match s with
      | [] => k s
      | _ :: _ => false
      end
  end.

(** [RegExp.prototype.test] without the [g] and [y] flags: a match is
    looked for at every start index, from the left. *)
Fixpoint search (inp : JSString) (r : regex) (s : JSString) : bool :=
  if m inp r s (fun _ => true) then true
  else match s with
       | [] => false
       | _ :: s' => search inp r s'
       end.

Definition test (r : regex) (inp : JSString) : bool := search inp r inp.

(** *** What a pattern matches, declaratively *)

(** [Matches inp r s s']: at the suffix [s] of [inp], [r] can match
    and leave [s']. *)
Inductive Matches (inp : JSString) : regex -> JSString -> JSString -> Prop :=
| M_Empty s : Matches inp Empty s s
| M_Class p c s : p c = true -> Matches inp (Class p) (c :: s) s
| M_Seq r1 r2 s s1 s2 :
    Matches inp r1 s s1 -> Matches inp r2 s1 s2 -> Matches inp (Seq r1 r2) s s2
| M_AltL r1 r2 s s1 : Matches inp r1 s s1 -> Matches inp (Alt r1 r2) s s1
| M_AltR r1 r2 s s1 : Matches inp r2 s s1 -> Matches inp (Alt r1 r2) s s1
| M_Star0 r s : Matches inp (Star r) s s
| M_StarS r s s1 s2 :
    Matches inp r s s1 -> (length s1 < length s)%nat ->
    Matches inp (Star r) s1 s2 -> Matches inp (Star r) s s2
| M_Look r s s1 : Matches inp r s s1 -> Matches inp (Lookahead r) s s
| M_Bol s : length s = length inp -> Matches inp Bol s s
| M_Eol : Matches inp Eol [] [].

(** The words of a pattern without anchors and lookaheads. *)
Fixpoint Lang (r : regex) (w : JSString) : Prop :=
  match r with
  | Empty => w = []
  | Class p => exists c, w = [c] /\ p c = true
  | Seq r1 r2 => exists w1 w2, w = w1 ++ w2 /\ Lang r1 w1 /\ Lang r2 w2
  | Alt r1 r2 => Lang r1 w \/ Lang r2 w
  | Star r1 => exists ws, w = concat ws /\ Forall (Lang r1) ws
  | Lookahead _ | Bol | Eol => False
  end.

Fixpoint anchor_free (r : regex) : bool :=
  match r with
  | Empty | Class _ => true
  | Seq r1 r2 | Alt r1 r2 => (anchor_free r1 && anchor_free r2)%bool
  | Star r1 => anchor_free r1
  | Lookahead _ | Bol | Eol => false
  end.

End Regex.

(** ** The page *)

(** An element of the page, with the properties the script reads or
    writes; every element has them all, whatever its tag.  An element
    without an [id] or [name] attribute has the empty string there.
    [form_owner] is the form owner of a control (its [form] property), as
    a reference.  [focusable] tells whether the element is a focusable
    area: a control that is neither disabled nor hidden, a link, an
    element with a [tabindex]; a [form], a [div] or a [small] is not.
    [is_form] tells whether the element is a [form] element, the only
    kind that has a [reset] method. *)
Record Element : Type := mkElement {
  id : JSString;
  value : JSString;
  defaultValue : JSString;
  checked : bool;
  defaultChecked : bool;
  textContent : JSString;
  classList : list JSString;
  form_owner : option nat;
  name : JSString;
  focusable : bool;
  is_form : bool
}.

(** The document lists its elements in document order; a reference to an
    element is its position, [None] is [null].  [activeElement] is the
    element that has the focus. *)
Record Page : Type := mkPage {
  elements : list Element;
  activeElement : option nat
}.

Definition Ref := option nat.

(** The submit event, as far as the handler touches it. *)
Record Event : Type := mkEvent { defaultPrevented : bool }.

(** Code that reads and writes the page and may throw a TypeError (on a
    property access through [null]): [None] is the throw. *)
Definition M (A : Type) : Type := Page -> option (A * Page).

Definition ret {A} (a : A) : M A := fun p => Some (a, p).
Definition bind {A B} (c : M A) (f : A -> M B) : M B :=
  fun p => match c p with
           | Some (a, p') => f a p'
           | None => None
           end.

Notation "'do' x <- c ; k" := (bind c (fun x => k))
  (at level 10, x name, c at level 100, k at level 200).
Notation "'run' c ; k" := (bind c (fun _ => k))
  (at level 10, c at level 100, k at level 200).

Fixpoint find_index (f : Element -> bool) (l : list Element) : option nat :=
  match l with
  | [] => None
  | e :: l' => if f e then Some O else option_map S (find_index f l')
  end.

Definition has_class (c : JSString) (e : Element) : bool :=
  existsb (str_eqb c) (classList e).

(** [document.getElementById] and [document.querySelector('.' + c)]: the
    first element in document order, or [null].  No element has the
    empty string as its id: [getElementById('')] is [null] whatever the
    page holds. *)
Definition find_id (i : JSString) (l : list Element) : option nat :=
  match i with
  | [] => None
  | _ :: _ => find_index (fun e => str_eqb (id e) i) l
  end.

Definition getElementById (i : JSString) : M Ref :=
  fun p => Some (find_id i (elements p), p).

Definition querySelector_class (c : JSString) : M Ref :=
  fun p => Some (find_index (has_class c) (elements p), p).

(** Reading a property of the element behind a reference. *)
Definition get {A} (f : Element -> A) (r : Ref) : M A :=
  fun p => match r with
           | Some i => match elements p !! i with
                       | Some e => Some (f e, p)
                       | None => None
                       end
           | None => None
           end.

(** Updating the element behind a reference in place. *)
Definition update (f : Element -> Element) (r : Ref) : M unit :=
  fun p => match r with
           | Some i => match elements p !! i with
                       | Some _ => Some (tt, mkPage (alter f i (elements p)) (activeElement p))
                       | None => None
                       end
           | None => None
           end.

Definition with_textContent (t : JSString) (e : Element) : Element :=
  mkElement (id e) (value e) (defaultValue e) (checked e) (defaultChecked e)
            t (classList e) (form_owner e)
            (name e) (focusable e) (is_form e).

Definition with_classList (cl : list JSString) (e : Element) : Element :=
  mkElement (id e) (value e) (defaultValue e) (checked e) (defaultChecked e)
            (textContent e) cl (form_owner e)
            (name e) (focusable e) (is_form e).

Definition set_textContent (r : Ref) (t : JSString) : M unit :=
  update (with_textContent t) r.

(** [classList.add] and [classList.remove] on the ordered token set. *)
Definition add_token (c : JSString) (cl : list JSString) : list JSString :=
  if existsb (str_eqb c) cl then cl else cl ++ [c].
Definition remove_token (c : JSString) (cl : list JSString) : list JSString :=
  List.filter (fun t => negb (str_eqb c t)) cl.

Definition classList_add (r : Ref) (c : JSString) : M unit :=
  update (fun e => with_classList (add_token c (classList e)) e) r.
Definition classList_remove (r : Ref) (c : JSString) : M unit :=
  update (fun e => with_classList (remove_token c (classList e)) e) r.

(** [el.focus()]: the element gets the focus when it is a focusable
    area; on any other element the call does nothing. *)
Definition focus (r : Ref) : M unit :=
  fun p => match r with
           | Some i => match elements p !! i with
                       | Some e =>
                           Some (tt, if focusable e then mkPage (elements p) (Some i) else p)
                       | None => None
                       end
           | None => None
           end.

(** [form.reset()]: every control owned by the form goes back to its
    default value and checkedness. *)
Definition reset_element (e : Element) : Element :=
  mkElement (id e) (defaultValue e) (defaultValue e) (defaultChecked e)
            (defaultChecked e) (textContent e) (classList e) (form_owner e)
            (name e) (focusable e) (is_form e).

Definition reset_owned (i : nat) (e : Element) : Element :=
  match form_owner e with
  | Some j => if Nat.eqb j i then reset_element e else e
  | None => e
  end.

(** A form exposes the controls it owns as properties named by their
    id and by their name, and these come before the methods of the form:
    with a control called [reset] in the form, [form.reset] is that
    control and not the method. *)
Definition called (nm : JSString) (e : Element) : bool :=
  (str_eqb (id e) nm || str_eqb (name e) nm)%bool.

Definition owned_by (i : nat) (e : Element) : bool :=
  match form_owner e with
  | Some j => Nat.eqb j i
  | None => false
  end.

Definition shadowed (i : nat) (nm : JSString) (l : list Element) : bool :=
  existsb (fun e => owned_by i e && called nm e)%bool l.

(** [form.reset()] throws a TypeError when [form.reset] is not the
    method: on an element that is not a form, where it is [undefined],
    and on a form that owns a control called [reset]. *)
Definition reset (r : Ref) : M unit :=
  fun p => match r with
           | Some i =>
               match elements p !! i with
               | Some fm =>
                   if (is_form fm && negb (shadowed i (u "reset") (elements p)))%bool
                   then Some (tt, mkPage (map (reset_owned i) (elements p))
                                         (activeElement p))
                   else None
               | None => None
               end
           | None => None
           end.

(** [document.querySelectorAll('.invalid').forEach(i => i.classList.remove('invalid'))] *)
Definition drop_class (c : JSString) (e : Element) : Element :=
  if has_class c e then with_classList (remove_token c (classList e)) e else e.

Definition remove_class_everywhere (c : JSString) : M unit :=
  fun p => Some (tt, mkPage (map (drop_class c) (elements p)) (activeElement p)).

(** What the user does to a control between two events. *)
Definition with_value (v : JSString) (e : Element) : Element :=
  mkElement (id e) v (defaultValue e) (checked e) (defaultChecked e)
            (textContent e) (classList e) (form_owner e)
            (name e) (focusable e) (is_form e).

Definition with_checked (b : bool) (e : Element) : Element :=
  mkElement (id e) (value e) (defaultValue e) b (defaultChecked e)
            (textContent e) (classList e) (form_owner e)
            (name e) (focusable e) (is_form e).

(** ** The script: form validation *)

Module Script.
Import Regex.

(** The element references the script takes when the page has loaded. *)
Record Refs : Type := mkRefs {
  form : Ref;
  nameInput : Ref;
  emailInput : Ref;
  passwordInput : Ref;
  confirmInput : Ref;
  ageInput : Ref;
  websiteInput : Ref;
  termsCheckbox : Ref;
  successBox : Ref
}.

Definition bindRefs : M Refs :=
  do form <- getElementById (u "signup-form");
  do nameInput <- getElementById (u "name");
  do emailInput <- getElementById (u "email");
  do passwordInput <- getElementById (u "password");
  do confirmInput <- getElementById (u "confirm-password");
  do ageInput <- getElementById (u "age");
  do websiteInput <- getElementById (u "website");
  do termsCheckbox <- getElementById (u "terms");
  do successBox <- getElementById (u "form-success");
  ret (mkRefs form nameInput emailInput passwordInput confirmInput
              ageInput websiteInput termsCheckbox successBox).

(** [/^[^\s@]+@[^\s@]+\.[^\s@]{2,}$/] *)
Definition not_space_at : N -> bool := cnot (cor is_white_space (cis "@")).
Definition emailRegex : regex :=
  seq [Bol; Plus (Class not_space_at); Chr "@"; Plus (Class not_space_at);
       Chr "."; AtLeast 2 (Class not_space_at); Eol].

(** [/^(https?:\/\/)?([\w-]+\.)+[\w-]{2,}(\/\S{0,})?$/], where the
    source writes the last quantifier [{0,}] as a star. *)
Definition word_hyphen : N -> bool := cor is_word (cis "-").
Definition urlRegex : regex :=
  seq [Bol;
       Opt (seq [Chr "h"; Chr "t"; Chr "t"; Chr "p"; Opt (Chr "s");
                 Chr ":"; Chr "/"; Chr "/"]);
       Plus (seq [Plus (Class word_hyphen); Chr "."]);
       AtLeast 2 (Class word_hyphen);
       Opt (seq [Chr "/"; Star (Class (cnot is_white_space))]);
       Eol].

(** [/^(?=.*[A-Za-z])(?=.*\d).{8,}$/] *)
Definition passwordRegex : regex :=
  seq [Bol;
       Lookahead (seq [Star (Class dot); Class is_letter]);
       Lookahead (seq [Star (Class dot); Class is_digit]);
       AtLeast 8 (Class dot);
       Eol].

Definition showError (el : Ref) (message : JSString) : M unit :=
  do i <- get id el;
  do small <- getElementById (i ++ u "-error");
  run set_textContent small message;
  classList_add el (u "invalid").

Definition clearError (el : Ref) : M unit :=
  do i <- get id el;
  do small <- getElementById (i ++ u "-error");
  run set_textContent small [];
  classList_remove el (u "invalid").

Definition validateName (R : Refs) : M bool :=
  do raw <- get value (nameInput R);
  let v := trim raw in
  if (length v <? 2)%nat then
    run showError (nameInput R)
          (u "Please enter your full name (at least 2 characters).");
    ret false
  else run clearError (nameInput R); ret true.

Definition validateEmail (R : Refs) : M bool :=
  do raw <- get value (emailInput R);
  let v := trim raw in
  if negb (test emailRegex v) then
    run showError (emailInput R) (u "Please enter a valid email address.");
    ret false
  else run clearError (emailInput R); ret true.

Definition validatePassword (R : Refs) : M bool :=
  do v <- get value (passwordInput R);
  if negb (test passwordRegex v) then
    run showError (passwordInput R)
          (u "Password must be 8+ characters and include letters and numbers.");
    ret false
  else run clearError (passwordInput R); ret true.

Definition validateConfirm (R : Refs) : M bool :=
  do c <- get value (confirmInput R);
  do pw <- get value (passwordInput R);
  if negb (str_eqb c pw) then
    run showError (confirmInput R) (u "Passwords do not match.");
    ret false
  else run clearError (confirmInput R); ret true.

Definition validateAge (R : Refs) : M bool :=
  do raw <- get value (ageInput R);
  let v := Number raw in
  if (negb (truthy v) || num_lt v (num 13) || num_gt v (num 120))%bool then
    run showError (ageInput R) (u "Enter a valid age (13 - 120).");
    ret false
  else run clearError (ageInput R); ret true.

Definition validateWebsite (R : Refs) : M bool :=
  do raw <- get value (websiteInput R);
  let v := trim raw in
  if str_eqb v [] then run clearError (websiteInput R); ret true
  else if negb (test urlRegex v) then
    run showError (websiteInput R)
          (u "Please enter a valid URL (or leave blank).");
    ret false
  else run clearError (websiteInput R); ret true.

Definition validateTerms (R : Refs) : M bool :=
  do c <- get checked (termsCheckbox R);
  if negb c then
    do small <- getElementById (u "terms-error");
    run set_textContent small (u "You must accept the terms.");
    ret false
  else
    do small <- getElementById (u "terms-error");
    run set_textContent small [];
    ret true.

(** The success message: ['Form is valid! '], the check mark U+2705, a
    space, the dash U+2014 and [' Thanks for signing up.']. *)
Definition success_message : JSString :=
  u "Form is valid! " ++ [9989%N] ++ u " " ++ [8212%N]
    ++ u " Thanks for signing up.".

(** The array literal of the submit handler: its seven elements are
    evaluated in order before [every] sees any of them. *)
Definition run_validators (R : Refs) : M (list bool) :=
  do v1 <- validateName R;
  do v2 <- validateEmail R;
  do v3 <- validatePassword R;
  do v4 <- validateConfirm R;
  do v5 <- validateAge R;
  do v6 <- validateWebsite R;
  do v7 <- validateTerms R;
  ret [v1; v2; v3; v4; v5; v6; v7].

(** The aggregate validation of the submit handler. *)
Definition validateAll (R : Refs) : M bool :=
  do results <- run_validators R;
  ret (forallb (fun v => Bool.eqb v true) results).

(** The submit listener.  [year] is what [new Date().getFullYear()]
    gives when the handler runs. *)
Definition onSubmit (R : Refs) (year : JSString) (e : Event) : M Event :=
  let e := mkEvent true (* e.preventDefault() *) in
  run set_textContent (successBox R) [];
  do valid <- validateAll R;
  run (if valid then
         run set_textContent (successBox R) success_message;
         run reset (form R);
         remove_class_everywhere (u "invalid")
       else
         do firstInvalid <- querySelector_class (u "invalid");
         match firstInvalid with
         | Some _ => focus firstInvalid
         | None => ret tt
         end);
  do footerYear <- getElementById (u "year");
  run (match footerYear with
       | Some _ => set_textContent footerYear year
       | None => ret tt
       end);
  ret e.

End Script.

(** ** The seven fields, uniformly *)

Import Regex Script.

Inductive Field : Type :=
  FName | FEmail | FPassword | FConfirm | FAge | FWebsite | FTerms.

Definition all_fields : list Field :=
  [FName; FEmail; FPassword; FConfirm; FAge; FWebsite; FTerms].

Definition field_id (f : Field) : JSString :=
  match f with
  | FName => u "name"
  | FEmail => u "email"
  | FPassword => u "password"
  | FConfirm => u "confirm-password"
  | FAge => u "age"
  | FWebsite => u "website"
  | FTerms => u "terms"
  end.

Definition label_id (f : Field) : JSString := field_id f ++ u "-error".

Definition field_ref (f : Field) (R : Refs) : Ref :=
  match f with
  | FName => nameInput R
  | FEmail => emailInput R
  | FPassword => passwordInput R
  | FConfirm => confirmInput R
  | FAge => ageInput R
  | FWebsite => websiteInput R
  | FTerms => termsCheckbox R
  end.

Definition validator (f : Field) : Refs -> M bool :=
  match f with
  | FName => validateName
  | FEmail => validateEmail
  | FPassword => validatePassword
  | FConfirm => validateConfirm
  | FAge => validateAge
  | FWebsite => validateWebsite
  | FTerms => validateTerms
  end.

(** The message each validator shows on failure. *)
Definition error_message (f : Field) : JSString :=
  match f with
  | FName => u "Please enter your full name (at least 2 characters)."
  | FEmail => u "Please enter a valid email address."
  | FPassword => u "Password must be 8+ characters and include letters and numbers."
  | FConfirm => u "Passwords do not match."
  | FAge => u "Enter a valid age (13 - 120)."
  | FWebsite => u "Please enter a valid URL (or leave blank)."
  | FTerms => u "You must accept the terms."
  end.

(** *** Observing a page *)

Definition lookup_id (i : JSString) (p : Page) : Ref := find_id i (elements p).
Arguments lookup_id i p : simpl never.

Definition elem (r : Ref) (p : Page) : option Element :=
  match r with
  | Some i => elements p !! i
  | None => None
  end.

Definition value_of (r : Ref) (p : Page) : JSString :=
  match elem r p with
  | Some e => value e
  | None => []
  end.

Definition checked_of (r : Ref) (p : Page) : bool :=
  match elem r p with
  | Some e => checked e
  | None => false
  end.

(** The references [bindRefs] yields on a page. *)
Definition the_refs (p : Page) : Refs :=
  mkRefs (lookup_id (u "signup-form") p) (lookup_id (u "name") p)
         (lookup_id (u "email") p) (lookup_id (u "password") p)
         (lookup_id (u "confirm-password") p) (lookup_id (u "age") p)
         (lookup_id (u "website") p) (lookup_id (u "terms") p)
         (lookup_id (u "form-success") p).

(** The text a field's error label displays, and whether the field
    carries the [invalid] marker. *)
Definition error_text (f : Field) (p : Page) : option JSString :=
  option_map textContent (elem (lookup_id (label_id f) p) p).

Definition marked (f : Field) (p : Page) : option bool :=
  option_map (has_class (u "invalid")) (elem (lookup_id (field_id f) p) p).

(** What a computation returns on a page, if it returns. *)
Definition result {A} (c : M A) (p : Page) : option A :=
  option_map fst (c p).

(** *** The precondition of the script *)

Definition present (i : JSString) (p : Page) : bool :=
  match lookup_id i p with
  | Some _ => true
  | None => false
  end.

(** Every field and its error label is on the page. *)
Definition fields_present (p : Page) : bool :=
  forallb (fun f => present (field_id f) p && present (label_id f) p) all_fields.

(** ... and so are the form and the success box. *)
Definition ready (p : Page) : bool :=
  fields_present p && present (u "signup-form") p && present (u "form-success") p.

(** [form.reset] is the method: the element with id [signup-form] is a
    form and owns no control called [reset]. *)
Definition reset_callable (p : Page) : bool :=
  match lookup_id (u "signup-form") p with
  | Some fm =>
      match elements p !! fm with
      | Some e => (is_form e && negb (shadowed fm (u "reset") (elements p)))%bool
      | None => false
      end
  | None => false
  end.

(** *** The condition each validator tests, on the values of a page *)

Definition age_in_range (v : spec_float) : bool :=
  negb (negb (truthy v) || num_lt v (num 13) || num_gt v (num 120)).

Definition passes (f : Field) (R : Refs) (p : Page) : bool :=
  match f with
  | FName => negb (length (trim (value_of (nameInput R) p)) <? 2)%nat
  | FEmail => test emailRegex (trim (value_of (emailInput R) p))
  | FPassword => test passwordRegex (value_of (passwordInput R) p)
  | FConfirm => str_eqb (value_of (confirmInput R) p) (value_of (passwordInput R) p)
  | FAge => age_in_range (Number (value_of (ageInput R) p))
  | FWebsite =>
      let v := trim (value_of (websiteInput R) p) in
      (str_eqb v [] || test urlRegex v)%bool
  | FTerms => checked_of (termsCheckbox R) p
  end.

(** What a validator leaves on the page when its test gave [b]: the
    label of the field shows the message or nothing, and the field gains
    or loses the marker; [validateTerms] writes the label only. *)
Definition mark (b : bool) (e : Element) : Element :=
  with_classList
    ((if b then remove_token (u "invalid") else add_token (u "invalid")) (classList e)) e.

Definition shown (f : Field) (b : bool) : JSString :=
  if b then [] else error_message f.

Definition effect (f : Field) (b : bool) (p : Page) : Page :=
  match lookup_id (field_id f) p, lookup_id (label_id f) p with
  | Some i, Some j =>
      let l := alter (with_textContent (shown f b)) j (elements p) in
      mkPage (match f with
              | FTerms => l
              | _ => alter (mark b) i l
              end) (activeElement p)
  | _, _ => p
  end.

(** The user changes one control: its value and its checkedness. *)
Definition change (f : Field) (v : JSString) (c : bool) (p : Page) : Page :=
  match lookup_id (field_id f) p with
  | Some i => mkPage (alter (fun e => with_checked c (with_value v e)) i (elements p))
                     (activeElement p)
  | None => p
  end.

Definition type_into (f : Field) (v : JSString) (p : Page) : Page :=
  match lookup_id (field_id f) p with
  | Some i => mkPage (alter (with_value v) i (elements p)) (activeElement p)
  | None => p
  end.

(** The first element in document order that carries the marker. *)
Definition first_marked (p : Page) : Ref :=
  find_index (has_class (u "invalid")) (elements p).

(** ** The specification's descriptions of the accepted values *)

(** The part of a string after its last dot (the whole string when it
    has none). *)
Definition final_label (s : JSString) : JSString :=
  rev (fst (span (fun c => negb (N.eqb c (ch "."))) (rev s))).

(** The e-mail shape in the words of the specification: [local@domain.tld]
    with no white space, exactly one [@], a dot in the domain, and a final
    label, the part after the last dot, of at least 2 characters. *)
Definition spec_email_shape (v : JSString) : bool :=
  let '(loc, rest) := span (fun c => negb (N.eqb c (ch "@"))) v in
  match rest with
  | _ :: dom =>
      (negb (existsb is_white_space v)
       && negb (existsb (cis "@") dom)
       && (0 <? length loc)%nat
       && existsb (cis ".") dom
       && (2 <=? length (final_label dom))%nat
       && (length (final_label dom) + 1 <? length dom)%nat)%bool
  | [] => false
  end.

(** The e-mail shape [emailRegex] accepts: some dot of the domain has at
    least one character before it and at least 2 after it, and these may
    contain further dots. *)
Definition email_shape (v : JSString) : Prop :=
  exists loc dom tail : JSString,
    v = loc ++ [ch "@"] ++ dom ++ [ch "."] ++ tail
    /\ loc <> [] /\ dom <> [] /\ (2 <= length tail)%nat
    /\ forallb not_space_at (loc ++ dom ++ tail) = true.

(** The loose URL shape in the words of the specification: an optional
    [http://] or [https://], one or more labels each followed by a dot, a
    final label of at least 2 characters, an optional path. *)
Definition spec_loose_url (v : JSString) : Prop :=
  exists (scheme : JSString) (labels : list JSString) (tld path : JSString),
    v = scheme ++ concat (map (fun l => l ++ [ch "."]) labels) ++ tld ++ path
    /\ (scheme = [] \/ scheme = u "http://" \/ scheme = u "https://")
    /\ labels <> []
    /\ Forall (fun l => l <> [] /\ forallb word_hyphen l = true) labels
    /\ (2 <= length tld)%nat /\ forallb word_hyphen tld = true
    /\ (path = [] \/
        exists rest, path = ch "/" :: rest
                     /\ forallb (cnot is_white_space) rest = true).

(** A Number that is numeric, not zero, and between 13 and 120. *)
Definition numeric_in_range (v : spec_float) : Prop :=
  v <> S754_nan /\ (forall s, v <> S754_zero s)
  /\ num_le (num 13) v = true /\ num_le v (num 120) = true.

(** ** A sign-up page to run the script on *)

(** A control of the form, the form itself, and an element that is
    neither. *)
Definition control (i : string) (v : JSString) (c : bool) : Element :=
  mkElement (u i) v [] c false [] [] (Some O) (u i) true false.

Definition form_element (i : string) : Element :=
  mkElement (u i) [] [] false false [] [] None [] false true.

Definition plain (i : string) : Element :=
  mkElement (u i) [] [] false false [] [] None [] false false.

Definition signup_page (name email password confirm age website : JSString)
    (terms : bool) : Page :=
  mkPage
    [ form_element "signup-form";
      control "name" name false; plain "name-error";
      control "email" email false; plain "email-error";
      control "password" password false; plain "password-error";
      control "confirm-password" confirm false; plain "confirm-password-error";
      control "age" age false; plain "age-error";
      control "website" website false; plain "website-error";
      control "terms" [] terms; plain "terms-error";
      plain "form-success"; plain "year" ]
    None.

(** Every field valid. *)
Definition valid_page : Page :=
  signup_page (u "Ada Lovelace") (u "ada@example.com") (u "abcdefg1")
              (u "abcdefg1") (u "36") [] true.

(** Every field valid but the terms, which are not accepted. *)
Definition terms_unchecked_page : Page :=
  signup_page (u "Ada Lovelace") (u "ada@example.com") (u "abcdefg1")
              (u "abcdefg1") (u "36") [] false.

(** Nothing filled in. *)
Definition blank_page : Page := signup_page [] [] [] [] [] [] false.

(** Every field valid, and the form owns a button with id [reset]. *)
Definition reset_in_form_page : Page :=
  mkPage (elements valid_page ++ [control "reset" [] false]) None.

(** Nothing filled in, and the form itself carries the marker. *)
Definition marked_form_page : Page :=
  mkPage (alter (fun e => with_classList [u "invalid"] e) 0 (elements blank_page)) None.

(** ** Auxiliary notions for the proofs *)

(** The part of an element no validator writes. *)
Definition inputs (e : Element) :=
  (id e, value e, checked e, defaultValue e, defaultChecked e, form_owner e,
   name e, focusable e, is_form e).

Definition same_inputs (p q : Page) : Prop :=
  map inputs (elements p) = map inputs (elements q).

(** The page after the validators of [fs] have run in turn on [q], when
    the values they test are those of [p]. *)
Definition refreshed (fs : list Field) (R : Refs) (p q : Page) : Page :=
  fold_left (fun q' f => effect f (passes f R p) q') fs q.

(** The three stages of the submit handler after the validation. *)
Definition set_text_at (i : nat) (t : JSString) (p : Page) : Page :=
  mkPage (alter (with_textContent t) i (elements p)) (activeElement p).

Definition on_success (s fm : nat) (q : Page) : Page :=
  mkPage (map (drop_class (u "invalid"))
            (map (reset_owned fm)
               (alter (with_textContent success_message) s (elements q))))
         (activeElement q).

Definition on_failure (q : Page) : Page :=
  match first_marked q with
  | Some i =>
      match elements q !! i with
      | Some e => if focusable e then mkPage (elements q) (Some i) else q
      | None => q
      end
  | None => q
  end.

Definition stamp_year (year : JSString) (q : Page) : Page :=
  match lookup_id (u "year") q with
  | Some y => set_text_at y year q
  | None => q
  end.

(** ** The listeners of the form *)

(** What the user can do to the form.  The script listens to [input] on
    the six text fields, to [change] on the checkbox and to [submit] on
    the form; an [input] on the checkbox has no listener. *)
Inductive UserEvent : Type :=
| Input (f : Field) (v : JSString)
| Change (c : bool)
| Submit (year : JSString).

(** The user edits the control of a field. *)
Definition edit (f : Field) (g : Element -> Element) (p : Page) : Page :=
  match lookup_id (field_id f) p with
  | Some i => mkPage (alter g i (elements p)) (activeElement p)
  | None => p
  end.

Definition tick (c : bool) (p : Page) : Page := edit FTerms (with_checked c) p.

(** The page after the event and its listener, [None] when the listener
    throws. *)
Definition step (R : Refs) (ev : UserEvent) (p : Page) : option Page :=
  match ev with
  | Input FTerms v => Some (type_into FTerms v p)
  | Input f v => option_map snd (validator f R (type_into f v p))
  | Change c => option_map snd (validateTerms R (tick c p))
  | Submit year => option_map snd (onSubmit R year (mkEvent false) p)
  end.


(** The display of a field agrees with what its validator finds on the
    page. *)
Definition in_sync (f : Field) (R : Refs) (p : Page) : Prop :=
  error_text f p = Some (shown f (passes f R p))
  /\ (f <> FTerms -> marked f p = Some (negb (passes f R p))).


(** What a validator does to the class list of its field. *)
Definition marker (f : Field) (b : bool) : Element -> Element :=
  match f with
  | FTerms => fun e => e
  | _ => mark b
  end.

(** A Number that is [NaN] or carries the minus sign. *)
Definition not_positive (v : spec_float) : Prop :=
  match v with
  | S754_nan => True
  | S754_zero s | S754_infinity s | S754_finite s _ _ => s = true
  end.

(** ** The tabbed interface *)

(** [el.classList.add(c)] and, for [querySelectorAll('.' + sel)], what
    [forEach(x => x.classList.remove(c))] does to one element. *)
Definition add_class (c : JSString) (e : Element) : Element :=
  with_classList (add_token c (classList e)) e.

Definition strip_class (sel c : JSString) (e : Element) : Element :=
  if has_class sel e then with_classList (remove_token c (classList e)) e else e.

(** [document.querySelectorAll('.' + sel).forEach(x => x.classList.remove(c))] *)
Definition remove_class_from (sel c : JSString) : M unit :=
  fun p => Some (tt, mkPage (map (strip_class sel c) (elements p)) (activeElement p)).

(** The click listener of the tab button [btn]; [target] is what
    [btn.dataset.tab] holds. *)
Definition tabClick (btn : Ref) (target : JSString) : M unit :=
  run remove_class_from (u "tab-btn") (u "active");
  run classList_add btn (u "active");
  run remove_class_from (u "tab-content") (u "active");
  do panel <- getElementById target;
  classList_add panel (u "active").

Definition active (e : Element) : bool := has_class (u "active") e.
Definition tab_btn (e : Element) : bool := has_class (u "tab-btn") e.
Definition tab_content (e : Element) : bool := has_class (u "tab-content") e.

(** The four steps of the listener, seen from the element in position
    [i] when the button is in position [b] and the panel in position [t]. *)
Definition clicked (b t i : nat) (e : Element) : Element :=
  let e1 := strip_class (u "tab-btn") (u "active") e in
  let e2 := if (i =? b)%nat then add_class (u "active") e1 else e1 in
  let e3 := strip_class (u "tab-content") (u "active") e2 in
  if (i =? t)%nat then add_class (u "active") e3 else e3.

(** The same on the class list alone. *)
Definition strip_tokens (sel c : JSString) (cl : list JSString) : list JSString :=
  if existsb (str_eqb sel) cl then remove_token c cl else cl.

Definition clicked_classes (b t i : nat) (cl : list JSString) : list JSString :=
  let c1 := strip_tokens (u "tab-btn") (u "active") cl in
  let c2 := if (i =? b)%nat then add_token (u "active") c1 else c1 in
  let c3 := strip_tokens (u "tab-content") (u "active") c2 in
  if (i =? t)%nat then add_token (u "active") c3 else c3.

(** The elements of the page after the four steps. *)
Definition click_elements (b t : nat) (l : list Element) : list Element :=
  alter (add_class (u "active")) t
    (map (strip_class (u "tab-content") (u "active"))
       (alter (add_class (u "active")) b
          (map (strip_class (u "tab-btn") (u "active")) l))).

(** Two tabs and their panels after the sign-up form; the first tab is
    the one shown. *)
Definition widget (i : string) (classes : list JSString) (button : bool) : Element :=
  mkElement (u i) [] [] false false [] classes None [] button false.

Definition tabs_page : Page :=
  mkPage (elements blank_page
          ++ [ widget "btn-one" [u "tab-btn"; u "active"] true;
               widget "btn-two" [u "tab-btn"] true;
               widget "tab-one" [u "tab-content"; u "active"] false;
               widget "tab-two" [u "tab-content"] false ])
         None.

(** The same page with one more element, which has no id. *)
Definition idless_page : Page :=
  mkPage (elements tabs_page ++ [widget EmptyString [u "note"] false]) None.


(** ** The theme toggle *)

Module Theme.

(** What the theme code reads and writes: the class list of [body], the
    text and the [aria-pressed] attribute of the button (which is on the
    page), and the [theme] key of [localStorage]; [None] is an absent
    attribute or key. *)
Record State : Type := mkState {
  body_classList : list JSString;
  themeBtn_textContent : JSString;
  themeBtn_aria_pressed : option JSString;
  localStorage_theme : option JSString
}.

(** The two labels: the sun U+2600 U+FE0F before [' Light Mode'] and the
    moon U+1F319, a surrogate pair, before [' Dark Mode']. *)
Definition light_mode_label : JSString := [9728%N; 65039%N] ++ u " Light Mode".
Definition dark_mode_label : JSString := [55356%N; 57113%N] ++ u " Dark Mode".

(** [String(b)] for a boolean. *)
Definition String_of_bool (b : bool) : JSString := if b then u "true" else u "false".

(** [classList.toggle]: the new list and whether the token is now in it. *)
Definition toggle_token (c : JSString) (cl : list JSString) : bool * list JSString :=
  if existsb (str_eqb c) cl then (false, remove_token c cl) else (true, cl ++ [c]).

Definition is_dark (s : State) : bool := existsb (str_eqb (u "dark")) (body_classList s).

(** Restoring the preference when the page has loaded. *)
Definition onLoad (s : State) : State :=
  let savedTheme := localStorage_theme s in
  match savedTheme with
  | Some v =>
      if str_eqb v (u "dark") then
        mkState (add_token (u "dark") (body_classList s)) light_mode_label
                (Some (u "true")) (localStorage_theme s)
      else s
  | None => s
  end.

(** The click listener of the button. *)
Definition onClick (s : State) : State :=
  let '(isDark, cl) := toggle_token (u "dark") (body_classList s) in
  mkState cl (if isDark then light_mode_label else dark_mode_label)
          (Some (String_of_bool isDark))
          (Some (if isDark then u "dark" else u "light")).

(** The [keydown] listener of the document. *)
Definition onKeydown (key : JSString) (s : State) : State :=
  if (str_eqb key (u "t") || str_eqb key (u "T"))%bool then onClick s else s.

(** The page as the server sends it, with whatever the store holds. *)
Definition served (text : JSString) (aria stored : option JSString) : State :=
  mkState [] text aria stored.

End Theme.

(** ** The collapsible FAQ *)

Module Faq.

(** A question: its [aria-expanded] attribute and class list, and the
    class list of its next sibling, the answer; [None] is an absent
    attribute or sibling. *)
Record Item : Type := mkItem {
  aria_expanded : option JSString;
  q_classList : list JSString;
  answer_classList : option (list JSString)
}.

Definition attr_is (a : option JSString) (v : JSString) : bool :=
  match a with
  | Some x => str_eqb x v
  | None => false
  end.

(** The click listener of a question; it throws when the question has no
    next sibling. *)
Definition onClick (it : Item) : option Item :=
  let expanded := attr_is (aria_expanded it) (u "true") in
  let aria := Some (Theme.String_of_bool (negb expanded)) in
  let q := snd (Theme.toggle_token (u "open") (q_classList it)) in
  match answer_classList it with
  | Some a => Some (mkItem aria q (Some (snd (Theme.toggle_token (u "open") a))))
  | None => None
  end.

(** The [keydown] listener of a question. *)
Definition onKeydown (key : JSString) (it : Item) : option Item :=
  if (str_eqb key (u "Enter") || str_eqb key (u " "))%bool then onClick it else Some it.

Definition is_open (cl : list JSString) : bool := existsb (str_eqb (u "open")) cl.

End Faq.

(** * Proofs *)

(** ** Strings *)

Lemma str_eqb_eq (a b : JSString) : str_eqb a b = true <-> a = b.
Proof.
  revert b. induction a as [|x a IH]; intros [|y b]; simpl; split; try easy.
  - intros H. apply andb_true_iff in H as [Hx Hab].
    apply N.eqb_eq in Hx. apply IH in Hab. congruence.
  - intros H. injection H as -> ->. rewrite N.eqb_refl. simpl. now apply IH.
Qed.

Lemma str_eqb_refl (a : JSString) : str_eqb a a = true.
Proof. now apply str_eqb_eq. Qed.

Lemma str_eqb_neq (a b : JSString) : a <> b -> str_eqb a b = false.
Proof.
  intros H. destruct (str_eqb a b) eqn:E; [|reflexivity].
  apply str_eqb_eq in E. contradiction.
Qed.

(** ** Looking elements up *)

Lemma find_index_Some (f : Element -> bool) l i :
  find_index f l = Some i ->
  exists e, l !! i = Some e /\ f e = true
            /\ forall j e', (j < i)%nat -> l !! j = Some e' -> f e' = false.
Proof.
  revert i. induction l as [|x l IH]; intros i; simpl; [easy|].
  destruct (f x) eqn:Fx.
  - intros [= <-]. exists x. repeat split; [assumption|]. intros j e' Hj. lia.
  - destruct (find_index f l) as [k|] eqn:Fl; simpl; [|easy].
    intros [= <-]. destruct (IH k eq_refl) as (e & He & Hf & Hmin).
    exists e. repeat split; try assumption.
    intros [|j] e' Hj; simpl.
    + intros [= <-]. assumption.
    + apply Hmin. lia.
Qed.



(** Looking an id up only reads the ids. *)
Lemma find_id_ids (i : JSString) l l' :
  map id l = map id l' -> find_id i l = find_id i l'.
Proof.
  unfold find_id. destruct i as [|c i]; [reflexivity|]. generalize (c :: i). intros t.
  revert l'. induction l as [|x l IH]; intros [|y l']; simpl; try easy.
  intros [= Hxy Hl]. rewrite Hxy, (IH l' Hl). reflexivity.
Qed.

Lemma ids_alter (f : Element -> Element) i l :
  (forall e, id (f e) = id e) -> map id (alter f i l) = map id l.
Proof.
  intros Hf. revert i. induction l as [|x l IH]; intros [|i]; simpl; try easy.
  - now rewrite Hf.
  - f_equal. apply IH.
Qed.

Lemma lookup_id_Some i p k :
  lookup_id i p = Some k ->
  exists e, elements p !! k = Some e /\ id e = i.
Proof.
  unfold lookup_id, find_id. destruct i as [|c i]; [discriminate|].
  intros H. apply find_index_Some in H as (e & He & Hid & _).
  exists e. split; [assumption|]. now apply str_eqb_eq.
Qed.

(** Two different ids never resolve to the same element. *)
Lemma lookup_id_inj i j p k :
  lookup_id i p = Some k -> lookup_id j p = Some k -> i = j.
Proof.
  intros Hi Hj. apply lookup_id_Some in Hi as (e & He & <-).
  apply lookup_id_Some in Hj as (e' & He' & <-). congruence.
Qed.

(** ** Running the validators *)

Lemma field_ref_the_refs f p : field_ref f (the_refs p) = lookup_id (field_id f) p.
Proof. destruct f; reflexivity. Qed.

Lemma bindRefs_run p : bindRefs p = Some (the_refs p, p).
Proof. reflexivity. Qed.

Lemma present_Some i p : present i p = true -> exists k, lookup_id i p = Some k.
Proof. unfold present. destruct (lookup_id i p) as [k|]; [eauto|easy]. Qed.

Lemma fields_present_field f p :
  fields_present p = true ->
  exists i j, lookup_id (field_id f) p = Some i /\ lookup_id (label_id f) p = Some j.
Proof.
  unfold fields_present. rewrite forallb_forall. intros H.
  assert (Hin : In f all_fields) by (destruct f; simpl; tauto).
  apply H in Hin. apply andb_true_iff in Hin as [Hi Hj].
  apply present_Some in Hi as [i Hi]. apply present_Some in Hj as [j Hj]. eauto.
Qed.

Lemma get_run {A} (g : Element -> A) r p e :
  elem r p = Some e -> get g r p = Some (g e, p).
Proof. destruct r as [i|]; simpl; [|easy]. now intros ->. Qed.

Lemma get_value_run f p :
  fields_present p = true ->
  get value (field_ref f (the_refs p)) p
  = Some (value_of (field_ref f (the_refs p)) p, p).
Proof.
  intros H. destruct (fields_present_field f p H) as (i & j & Hi & _).
  rewrite field_ref_the_refs, Hi.
  destruct (lookup_id_Some _ _ Hi) as (e & He & _).
  unfold value_of. simpl. now rewrite He.
Qed.

Lemma update_run g i p :
  (i < length (elements p))%nat ->
  update g (Some i) p = Some (tt, mkPage (alter g i (elements p)) (activeElement p)).
Proof.
  intros Hi. unfold update.
  destruct (lookup_lt_is_Some_2 _ _ Hi) as [e ->]. reflexivity.
Qed.

Lemma lookup_id_lt i p k : lookup_id i p = Some k -> (k < length (elements p))%nat.
Proof.
  intros H. destruct (lookup_id_Some _ _ H) as (e & He & _).
  now apply lookup_lt_Some in He.
Qed.

Lemma bind_run {A B} (c : M A) (k : A -> M B) p a p' :
  c p = Some (a, p') -> bind c k p = k a p'.
Proof. unfold bind. now intros ->. Qed.

(** [showError] and [clearError] on a field other than the checkbox. *)
Lemma show_clear_run f (b : bool) p :
  fields_present p = true -> f <> FTerms ->
  (if b then clearError (field_ref f (the_refs p))
   else showError (field_ref f (the_refs p)) (error_message f)) p
  = Some (tt, effect f b p).
Proof.
  intros H Hf. destruct (fields_present_field f p H) as (i & j & Hi & Hj).
  rewrite field_ref_the_refs. unfold effect. rewrite Hi, Hj.
  destruct (lookup_id_Some _ _ Hi) as (e & He & Hid).
  pose proof (lookup_id_lt _ _ Hi) as Li. pose proof (lookup_id_lt _ _ Hj) as Lj.
  assert (Hget : get id (Some i) p = Some (field_id f, p)).
  { rewrite (get_run id (Some i) p He). now rewrite Hid. }
  assert (Hlab : getElementById (field_id f ++ u "-error") p = Some (Some j, p)).
  { unfold getElementById. fold (lookup_id (field_id f ++ u "-error") p).
    fold (label_id f). now rewrite Hj. }
  destruct b.
  - unfold clearError. rewrite (bind_run _ _ _ Hget), (bind_run _ _ _ Hlab).
    unfold set_textContent. rewrite (bind_run _ _ _ (update_run _ _ Lj)).
    unfold classList_remove. rewrite update_run by (simpl; now rewrite length_alter).
    simpl. destruct f; try reflexivity. contradiction.
  - unfold showError. rewrite (bind_run _ _ _ Hget), (bind_run _ _ _ Hlab).
    unfold set_textContent. rewrite (bind_run _ _ _ (update_run _ _ Lj)).
    unfold classList_add. rewrite update_run by (simpl; now rewrite length_alter).
    simpl. destruct f; try reflexivity. contradiction.
Qed.

Lemma show_clear_ret f (b : bool) p :
  fields_present p = true -> f <> FTerms ->
  (if b then run clearError (field_ref f (the_refs p)); ret true
   else run showError (field_ref f (the_refs p)) (error_message f); ret false) p
  = Some (b, effect f b p).
Proof.
  intros H Hf. pose proof (@show_clear_run f b p H Hf) as Hr.
  destruct b; now rewrite (bind_run _ _ _ Hr).
Qed.

(** The two steps every validator of a text field starts with: read the
    value, then show or clear according to the test. *)
Ltac reads f p H := rewrite (bind_run _ _ _ (get_value_run f p H)).
Ltac shows Hs f :=
  specialize (Hs f ltac:(discriminate)); revert Hs;
  cbn [passes field_ref error_message].

(** Each validator returns what its test gives and leaves its effect. *)
Lemma validator_run f p :
  fields_present p = true ->
  validator f (the_refs p) p
  = Some (passes f (the_refs p) p, effect f (passes f (the_refs p) p) p).
Proof.
  intros H.
  assert (Hs : forall g, g <> FTerms ->
             (if passes g (the_refs p) p
              then run clearError (field_ref g (the_refs p)); ret true
              else run showError (field_ref g (the_refs p)) (error_message g);
                   ret false) p
             = Some (passes g (the_refs p) p, effect g (passes g (the_refs p) p) p)).
  { intros g Hg. now apply show_clear_ret. }
  destruct f; simpl validator.
  - unfold validateName. reads FName p H. shows Hs FName.
    destruct (length _ <? 2)%nat; intros Hs; exact Hs.
  - unfold validateEmail. reads FEmail p H. shows Hs FEmail.
    destruct (test emailRegex _); intros Hs; exact Hs.
  - unfold validatePassword. reads FPassword p H. shows Hs FPassword.
    destruct (test passwordRegex _); intros Hs; exact Hs.
  - unfold validateConfirm. reads FConfirm p H. reads FPassword p H.
    shows Hs FConfirm.
    destruct (str_eqb _ _); intros Hs; exact Hs.
  - unfold validateAge. reads FAge p H. shows Hs FAge. unfold age_in_range.
    destruct (negb (truthy _) || _ || _)%bool; intros Hs; exact Hs.
  - unfold validateWebsite. reads FWebsite p H. shows Hs FWebsite.
    destruct (str_eqb _ []); [intros Hs; exact Hs|].
    destruct (test urlRegex _); intros Hs; exact Hs.
  - clear Hs. unfold validateTerms.
    destruct (fields_present_field FTerms p H) as (i & j & Hi & Hj).
    destruct (lookup_id_Some _ _ Hi) as (e & He & Hid).
    pose proof (lookup_id_lt _ _ Hj) as Lj.
    assert (Hget : get checked (termsCheckbox (the_refs p)) p
                   = Some (checked_of (termsCheckbox (the_refs p)) p, p)).
    { change (termsCheckbox (the_refs p)) with (lookup_id (field_id FTerms) p).
      rewrite Hi. unfold checked_of. simpl. now rewrite He. }
    rewrite (bind_run _ _ _ Hget). cbn [passes].
    assert (Hlab : getElementById (u "terms-error") p = Some (Some j, p)).
    { unfold getElementById. change (u "terms-error") with (label_id FTerms).
      fold (lookup_id (label_id FTerms) p). now rewrite Hj. }
    unfold effect. rewrite Hi, Hj.
    destruct (checked_of (termsCheckbox (the_refs p)) p); cbn [negb].
    + rewrite (bind_run _ _ _ Hlab). unfold set_textContent.
      now rewrite (bind_run _ _ _ (update_run _ _ Lj)).
    + rewrite (bind_run _ _ _ Hlab). unfold set_textContent.
      now rewrite (bind_run _ _ _ (update_run _ _ Lj)).
Qed.

(** ** What a validator changes, and what it leaves alone *)

Lemma field_id_inj f g : field_id f = field_id g -> f = g.
Proof. destruct f, g; try reflexivity; intros H; vm_compute in H; discriminate H. Qed.

Lemma label_id_inj f g : label_id f = label_id g -> f = g.
Proof. destruct f, g; try reflexivity; intros H; vm_compute in H; discriminate H. Qed.

Lemma field_id_not_label f g : field_id f <> label_id g.
Proof. destruct f, g; intros H; vm_compute in H; discriminate H. Qed.

Lemma inputs_alter g i (l : list Element) :
  (forall e, inputs (g e) = inputs e) -> map inputs (alter g i l) = map inputs l.
Proof.
  intros Hg. revert i. induction l as [|x l IH]; intros [|i]; simpl; try easy.
  - now rewrite Hg.
  - f_equal. apply IH.
Qed.

Lemma inputs_ids (l l' : list Element) :
  map inputs l = map inputs l' -> map id l = map id l'.
Proof.
  revert l'. induction l as [|x l IH]; intros [|y l']; simpl; try easy.
  intros [= Hxy Hl]. f_equal; [|now apply IH].
  unfold inputs in Hxy. congruence.
Qed.

Lemma inputs_lookup (l l' : list Element) k :
  map inputs l = map inputs l' ->
  option_map inputs (l !! k) = option_map inputs (l' !! k).
Proof.
  intros H. change (option_map inputs (l !! k)) with (inputs <$> l !! k).
  change (option_map inputs (l' !! k)) with (inputs <$> l' !! k).
  rewrite <- !list_lookup_fmap.
  change (inputs <$> l) with (map inputs l). change (inputs <$> l') with (map inputs l').
  now rewrite H.
Qed.

Lemma same_inputs_lookup_id p q i : same_inputs p q -> lookup_id i p = lookup_id i q.
Proof. intros H. apply find_id_ids. now apply inputs_ids. Qed.

Lemma same_inputs_value p q r : same_inputs p q -> value_of r p = value_of r q.
Proof.
  intros H. unfold value_of, elem. destruct r as [k|]; [|reflexivity].
  pose proof (inputs_lookup (elements p) (elements q) k H) as Hk.
  destruct (elements p !! k) as [e|], (elements q !! k) as [e'|]; simpl in Hk;
    try discriminate Hk; [|reflexivity].
  unfold inputs in Hk. congruence.
Qed.

Lemma same_inputs_checked p q r : same_inputs p q -> checked_of r p = checked_of r q.
Proof.
  intros H. unfold checked_of, elem. destruct r as [k|]; [|reflexivity].
  pose proof (inputs_lookup (elements p) (elements q) k H) as Hk.
  destruct (elements p !! k) as [e|], (elements q !! k) as [e'|]; simpl in Hk;
    try discriminate Hk; [|reflexivity].
  unfold inputs in Hk. congruence.
Qed.

Lemma same_inputs_refs p q : same_inputs p q -> the_refs p = the_refs q.
Proof. intros H. unfold the_refs. now rewrite !(same_inputs_lookup_id _ H). Qed.

Lemma same_inputs_passes p q f R : same_inputs p q -> passes f R p = passes f R q.
Proof.
  intros H. destruct f; simpl;
    now rewrite ?(same_inputs_value _ H), ?(same_inputs_checked _ H).
Qed.

Lemma same_inputs_present p q : same_inputs p q -> fields_present p = fields_present q.
Proof.
  intros H. unfold fields_present, present. simpl.
  now rewrite !(same_inputs_lookup_id _ H).
Qed.

Lemma same_inputs_effect f b p : same_inputs (effect f b p) p.
Proof.
  unfold same_inputs, effect.
  destruct (lookup_id (field_id f) p) as [i|]; [|reflexivity].
  destruct (lookup_id (label_id f) p) as [j|]; [|reflexivity].
  destruct f; simpl; rewrite ?inputs_alter; try reflexivity; intros e; reflexivity.
Qed.

(** *** The marker *)

Lemma has_class_add c cl : existsb (str_eqb c) (add_token c cl) = true.
Proof.
  unfold add_token. destruct (existsb (str_eqb c) cl) eqn:E; [assumption|].
  rewrite existsb_app. simpl. rewrite str_eqb_refl. now rewrite orb_true_r.
Qed.

Lemma has_class_remove c cl : existsb (str_eqb c) (remove_token c cl) = false.
Proof.
  unfold remove_token. induction cl as [|t cl IH]; [reflexivity|].
  cbn [List.filter]. destruct (str_eqb c t) eqn:E; cbn [negb]; [exact IH|].
  cbn [existsb]. now rewrite E, IH.
Qed.

Lemma add_token_twice c cl : add_token c (add_token c cl) = add_token c cl.
Proof. unfold add_token at 1. now rewrite has_class_add. Qed.

Lemma remove_token_twice c cl : remove_token c (remove_token c cl) = remove_token c cl.
Proof.
  unfold remove_token. induction cl as [|t cl IH]; [reflexivity|].
  cbn [List.filter]. destruct (str_eqb c t) eqn:E; cbn [negb]; [exact IH|].
  cbn [List.filter]. rewrite E. cbn [negb]. now rewrite IH.
Qed.

Lemma has_class_mark b e : has_class (u "invalid") (mark b e) = negb b.
Proof.
  unfold has_class, mark. simpl classList.
  destruct b; [apply has_class_remove | apply has_class_add].
Qed.

Lemma mark_twice b e : mark b (mark b e) = mark b e.
Proof.
  unfold mark, with_classList. simpl.
  destruct b; now rewrite ?remove_token_twice, ?add_token_twice.
Qed.

(** *** The display of a field after a validator *)

Lemma effect_elements f b p i j :
  lookup_id (field_id f) p = Some i -> lookup_id (label_id f) p = Some j ->
  i <> j
  /\ elements (effect f b p)
     = match f with
       | FTerms => alter (with_textContent (shown f b)) j (elements p)
       | _ => alter (mark b) i (alter (with_textContent (shown f b)) j (elements p))
       end.
Proof.
  intros Hi Hj. split.
  - intros ->. apply (field_id_not_label f f). exact (lookup_id_inj _ _ _ Hi Hj).
  - unfold effect. rewrite Hi, Hj. now destruct f.
Qed.

Lemma error_text_effect f b p :
  fields_present p = true -> error_text f (effect f b p) = Some (shown f b).
Proof.
  intros H. destruct (fields_present_field f p H) as (i & j & Hi & Hj).
  unfold error_text. rewrite (same_inputs_lookup_id _ (same_inputs_effect f b p)), Hj.
  destruct (effect_elements f b p Hi Hj) as [Hne El]. simpl elem. rewrite El.
  destruct (lookup_id_Some _ _ Hj) as (e & He & _).
  assert (Hj' : alter (with_textContent (shown f b)) j (elements p) !! j
                = Some (with_textContent (shown f b) e)).
  { rewrite list_lookup_alter_eq, He. reflexivity. }
  destruct f; rewrite ?list_lookup_alter_ne by exact Hne; now rewrite Hj'.
Qed.

Lemma error_text_effect_other f g b p :
  f <> g -> error_text g (effect f b p) = error_text g p.
Proof.
  intros Hfg. unfold error_text.
  rewrite (same_inputs_lookup_id _ (same_inputs_effect f b p)).
  destruct (lookup_id (label_id g) p) as [k|] eqn:Hk; [|reflexivity].
  simpl elem. unfold effect.
  destruct (lookup_id (field_id f) p) as [i|] eqn:Hi; [|reflexivity].
  destruct (lookup_id (label_id f) p) as [j|] eqn:Hj; [|reflexivity].
  assert (Hik : i <> k).
  { intros ->. apply (field_id_not_label f g). exact (lookup_id_inj _ _ _ Hi Hk). }
  assert (Hjk : j <> k).
  { intros ->. apply Hfg, label_id_inj. exact (lookup_id_inj _ _ _ Hj Hk). }
  destruct f; simpl elements;
    rewrite ?list_lookup_alter_ne by assumption; reflexivity.
Qed.

Lemma marked_effect f b p :
  fields_present p = true -> f <> FTerms -> marked f (effect f b p) = Some (negb b).
Proof.
  intros H Hf. destruct (fields_present_field f p H) as (i & j & Hi & Hj).
  unfold marked. rewrite (same_inputs_lookup_id _ (same_inputs_effect f b p)), Hi.
  destruct (effect_elements f b p Hi Hj) as [Hne El]. simpl elem. rewrite El.
  destruct (lookup_id_Some _ _ Hi) as (e & He & _).
  assert (Hi' : alter (mark b) i (alter (with_textContent (shown f b)) j (elements p)) !! i
                = Some (mark b e)).
  { rewrite list_lookup_alter_eq, list_lookup_alter_ne, He by congruence. reflexivity. }
  destruct f; try contradiction; rewrite Hi'; simpl; now rewrite has_class_mark.
Qed.

(** [validateTerms] never touches the marker of the checkbox, and no
    validator touches the marker of another field. *)
Lemma marked_effect_other f g b p :
  f <> g \/ f = FTerms -> marked g (effect f b p) = marked g p.
Proof.
  intros Hfg. unfold marked.
  rewrite (same_inputs_lookup_id _ (same_inputs_effect f b p)).
  destruct (lookup_id (field_id g) p) as [k|] eqn:Hk; [|reflexivity].
  simpl elem. unfold effect.
  destruct (lookup_id (field_id f) p) as [i|] eqn:Hi; [|reflexivity].
  destruct (lookup_id (label_id f) p) as [j|] eqn:Hj; [|reflexivity].
  assert (Hjk : j <> k).
  { intros ->. apply (field_id_not_label g f). exact (lookup_id_inj _ _ _ Hk Hj). }
  assert (Hcl : forall l : list Element,
            option_map (has_class (u "invalid"))
                       (alter (with_textContent (shown f b)) j l !! k)
            = option_map (has_class (u "invalid")) (l !! k)).
  { intros l. now rewrite list_lookup_alter_ne. }
  destruct Hfg as [Hfg| ->]; [|simpl elements; apply Hcl].
  assert (Hik : i <> k).
  { intros ->. apply Hfg, field_id_inj. exact (lookup_id_inj _ _ _ Hi Hk). }
  destruct f; simpl elements; rewrite ?list_lookup_alter_ne by assumption;
    reflexivity.
Qed.

(** Running the same effect again changes nothing. *)
Lemma effect_twice f b p : effect f b (effect f b p) = effect f b p.
Proof.
  unfold effect at 1.
  rewrite !(same_inputs_lookup_id _ (same_inputs_effect f b p)).
  destruct (lookup_id (field_id f) p) as [i|] eqn:Hi; [|reflexivity].
  destruct (lookup_id (label_id f) p) as [j|] eqn:Hj; [|reflexivity].
  destruct (effect_elements f b p Hi Hj) as [Hne El]. rewrite El.
  assert (Ht : forall l : list Element,
            alter (with_textContent (shown f b)) j
                  (alter (with_textContent (shown f b)) j l)
            = alter (with_textContent (shown f b)) j l).
  { intros l. rewrite list_alter_alter_eq. now apply list_alter_ext. }
  assert (Hm : forall l : list Element,
            alter (mark b) i (alter (mark b) i l) = alter (mark b) i l).
  { intros l. rewrite list_alter_alter_eq. apply list_alter_ext; [|reflexivity].
    intros e _. apply mark_twice. }
  assert (Ha : activeElement (effect f b p) = activeElement p).
  { unfold effect. now rewrite Hi, Hj. }
  assert (Hp : forall l, elements (effect f b p) = l ->
                         effect f b p = mkPage l (activeElement p)).
  { intros l <-. rewrite <- Ha. now destruct (effect f b p). }
  rewrite Ha. symmetry. apply Hp. rewrite El.
  destruct f; rewrite ?Ht; try reflexivity;
    rewrite (list_alter_alter_ne (with_textContent _) (mark b)) by congruence;
    now rewrite Ht, Hm.
Qed.

Lemma active_effect f b p : activeElement (effect f b p) = activeElement p.
Proof.
  unfold effect. now destruct (lookup_id (field_id f) p), (lookup_id (label_id f) p).
Qed.

(** A validator writes the field and its label, and nothing else. *)
Lemma effect_frame f b p k :
  lookup_id (field_id f) p <> Some k -> lookup_id (label_id f) p <> Some k ->
  elements (effect f b p) !! k = elements p !! k.
Proof.
  intros Hi Hj. unfold effect.
  destruct (lookup_id (field_id f) p) as [i|]; [|reflexivity].
  destruct (lookup_id (label_id f) p) as [j|]; [|reflexivity].
  assert (i <> k) by congruence. assert (j <> k) by congruence.
  destruct f; simpl elements; now rewrite ?list_lookup_alter_ne by assumption.
Qed.

(** ** The aggregate validation *)

Lemma same_inputs_refl p : same_inputs p p.
Proof. reflexivity. Qed.

Lemma same_inputs_trans p q r : same_inputs p q -> same_inputs q r -> same_inputs p r.
Proof. unfold same_inputs. congruence. Qed.

(** A validator run on a page that differs from [p] in displays only. *)
Lemma validator_run_at f p q :
  same_inputs q p -> fields_present p = true ->
  validator f (the_refs p) q
  = Some (passes f (the_refs p) p, effect f (passes f (the_refs p) p) q).
Proof.
  intros Hq H. rewrite <- (same_inputs_refs Hq).
  rewrite validator_run by now rewrite (same_inputs_present Hq).
  now rewrite (same_inputs_passes f (the_refs q) Hq).
Qed.

Lemma same_inputs_refreshed fs R p q : same_inputs (refreshed fs R p q) q.
Proof.
  revert q. induction fs as [|f fs IH]; intros q; [reflexivity|].
  simpl. eapply same_inputs_trans; [apply IH|apply same_inputs_effect].
Qed.

Lemma run_validators_run_at p q :
  fields_present p = true -> same_inputs q p ->
  run_validators (the_refs p) q
  = Some (map (fun f => passes f (the_refs p) p) all_fields,
          refreshed all_fields (the_refs p) p q).
Proof.
  intros H Hq. unfold run_validators, refreshed, all_fields. cbn [fold_left map].
  assert (step : forall f q' (k : bool -> M (list bool)),
             same_inputs q' p ->
             bind (validator f (the_refs p)) k q'
             = k (passes f (the_refs p) p) (effect f (passes f (the_refs p) p) q')).
  { intros f q' k Hq'. apply bind_run. now apply validator_run_at. }
  change validateName with (validator FName).
  change validateEmail with (validator FEmail).
  change validatePassword with (validator FPassword).
  change validateConfirm with (validator FConfirm).
  change validateAge with (validator FAge).
  change validateWebsite with (validator FWebsite).
  change validateTerms with (validator FTerms).
  repeat (rewrite step;
          [|repeat (first [exact Hq
                          | eapply same_inputs_trans; [apply same_inputs_effect|]])]).
  reflexivity.
Qed.

Lemma validateAll_run_at p q :
  fields_present p = true -> same_inputs q p ->
  validateAll (the_refs p) q
  = Some (forallb (fun f => passes f (the_refs p) p) all_fields,
          refreshed all_fields (the_refs p) p q).
Proof.
  intros H Hq. unfold validateAll.
  rewrite (bind_run _ _ _ (run_validators_run_at H Hq)).
  unfold ret. f_equal. f_equal. cbn [map forallb all_fields].
  assert (E : forall b, Bool.eqb b true = b) by now intros [|].
  now rewrite !E.
Qed.

Lemma validateAll_run p :
  fields_present p = true ->
  validateAll (the_refs p) p
  = Some (forallb (fun f => passes f (the_refs p) p) all_fields,
          refreshed all_fields (the_refs p) p p).
Proof. intros H. apply validateAll_run_at; [exact H|apply same_inputs_refl]. Qed.

Lemma same_inputs_present_all p q : same_inputs p q -> fields_present q = true -> fields_present p = true.
Proof. intros H. now rewrite (same_inputs_present H). Qed.

Lemma error_text_refreshed fs f R p q :
  fields_present q = true -> List.NoDup fs -> In f fs ->
  error_text f (refreshed fs R p q) = Some (shown f (passes f R p)).
Proof.
  intros Hq Hnd. revert q Hq. induction Hnd as [|g fs Hg Hnd IH]; intros q Hq Hin.
  - destruct Hin.
  - simpl. destruct Hin as [->|Hin].
    + clear IH. assert (Hkeep : forall fs' q', ~ In f fs' ->
                  error_text f (refreshed fs' R p q') = error_text f q').
      { induction fs' as [|h fs' IH']; intros q' Hn; [reflexivity|].
        simpl. rewrite IH' by (intros Hc; apply Hn; now right).
        apply error_text_effect_other. intros ->. apply Hn. now left. }
      fold (refreshed fs R p (effect f (passes f R p) q)).
      rewrite Hkeep by exact Hg. now apply error_text_effect.
    + apply IH; [|exact Hin].
      apply (same_inputs_present_all (same_inputs_effect g _ q) Hq).
Qed.

Lemma marked_refreshed fs f R p q :
  fields_present q = true -> List.NoDup fs -> In f fs -> f <> FTerms ->
  marked f (refreshed fs R p q) = Some (negb (passes f R p)).
Proof.
  intros Hq Hnd. revert q Hq. induction Hnd as [|g fs Hg Hnd IH]; intros q Hq Hin Hf.
  - destruct Hin.
  - simpl. destruct Hin as [->|Hin].
    + clear IH. assert (Hkeep : forall fs' q', ~ In f fs' ->
                  marked f (refreshed fs' R p q') = marked f q').
      { induction fs' as [|h fs' IH']; intros q' Hn; [reflexivity|].
        simpl. rewrite IH' by (intros Hc; apply Hn; now right).
        apply marked_effect_other. left. intros ->. apply Hn. now left. }
      fold (refreshed fs R p (effect f (passes f R p) q)).
      rewrite Hkeep by exact Hg. now apply marked_effect.
    + apply IH; [|exact Hin|exact Hf].
      apply (same_inputs_present_all (same_inputs_effect g _ q) Hq).
Qed.

Lemma all_fields_NoDup : List.NoDup all_fields.
Proof. unfold all_fields. repeat constructor; simpl; intuition discriminate. Qed.

Lemma all_fields_In f : In f all_fields.
Proof. destruct f; simpl; tauto. Qed.

Lemma result_validator f p :
  fields_present p = true ->
  result (validator f (the_refs p)) p = Some (passes f (the_refs p) p).
Proof. intros H. unfold result. now rewrite validator_run. Qed.

(** ** The validators, one field at a time *)

(** C9. When every field and its error label is on the page, each of the
    seven validators returns, whatever the values of the fields are: it
    does not throw.  It writes the field and its error label only, and
    there displays only (ids, values, checkedness and the focus stay as
    they were); a failure shows as the error text of the field and, for a
    text field, as its marker. *)
Theorem validators_total (f : Field) (p : Page) :
  fields_present p = true ->
  exists b p',
    validator f (the_refs p) p = Some (b, p')
    /\ same_inputs p' p
    /\ activeElement p' = activeElement p
    /\ (forall k, lookup_id (field_id f) p <> Some k ->
                  lookup_id (label_id f) p <> Some k ->
                  elements p' !! k = elements p !! k)
    /\ (b = false ->
        error_text f p' = Some (error_message f)
        /\ (f <> FTerms -> marked f p' = Some true)).
Proof.
  intros H. exists (passes f (the_refs p) p), (effect f (passes f (the_refs p) p) p).
  split; [now apply validator_run|]. split; [apply same_inputs_effect|].
  split; [apply active_effect|]. split; [intros k; apply effect_frame|].
  intros Hb. rewrite error_text_effect by exact H. rewrite Hb.
  split; [reflexivity|]. intros Hf. now rewrite marked_effect.
Qed.

Lemma validators_total_blank_age :
  fields_present blank_page = true
  /\ exists b p',
       validator FAge (the_refs blank_page) blank_page = Some (b, p')
       /\ same_inputs p' blank_page
       /\ activeElement p' = activeElement blank_page
       /\ (forall k, lookup_id (field_id FAge) blank_page <> Some k ->
                     lookup_id (label_id FAge) blank_page <> Some k ->
                     elements p' !! k = elements blank_page !! k)
       /\ (b = false ->
           error_text FAge p' = Some (error_message FAge)
           /\ (FAge <> FTerms -> marked FAge p' = Some true)).
Proof.
  split; [vm_compute; reflexivity|].
  apply (validators_total FAge blank_page). vm_compute; reflexivity.
Defined.

(** C7. Running a validator a second time right after the first, on
    unchanged values, returns the same boolean and leaves the page, and so
    the error text and the marker, exactly as the first run left them. *)
Theorem validators_idempotent (f : Field) (p : Page) :
  fields_present p = true ->
  exists b p',
    validator f (the_refs p) p = Some (b, p')
    /\ validator f (the_refs p) p' = Some (b, p').
Proof.
  intros H. exists (passes f (the_refs p) p), (effect f (passes f (the_refs p) p) p).
  split; [now apply validator_run|].
  rewrite validator_run_at; [|apply same_inputs_effect|exact H].
  now rewrite effect_twice.
Qed.

Lemma validators_idempotent_blank_name :
  fields_present blank_page = true
  /\ exists b p',
       validator FName (the_refs blank_page) blank_page = Some (b, p')
       /\ validator FName (the_refs blank_page) p' = Some (b, p').
Proof. split; [reflexivity | apply (validators_idempotent FName blank_page); reflexivity]. Defined.

(** C2, as the code has it.  After a validator has run, the error text of
    its field is the message on failure and empty on success.  For the
    six text fields the [invalid] marker is set on failure and removed on
    success; [validateTerms] writes the error text only and leaves the
    marker of the checkbox as it was. *)
Theorem validator_display (f : Field) (p : Page) :
  fields_present p = true ->
  exists b p',
    validator f (the_refs p) p = Some (b, p')
    /\ error_text f p' = Some (if b then [] else error_message f)
    /\ (f <> FTerms -> marked f p' = Some (negb b))
    /\ (f = FTerms -> marked f p' = marked f p).
Proof.
  intros H. exists (passes f (the_refs p) p), (effect f (passes f (the_refs p) p) p).
  split; [now apply validator_run|]. split; [now apply error_text_effect|]. split.
  - intros Hf. now apply marked_effect.
  - intros ->. apply marked_effect_other. now right.
Qed.

Lemma validator_display_blank_email :
  fields_present blank_page = true
  /\ exists b p',
       validator FEmail (the_refs blank_page) blank_page = Some (b, p')
       /\ error_text FEmail p' = Some (if b then [] else error_message FEmail)
       /\ (FEmail <> FTerms -> marked FEmail p' = Some (negb b))
       /\ (FEmail = FTerms -> marked FEmail p' = marked FEmail blank_page).
Proof. split; [reflexivity | apply (validator_display FEmail blank_page); reflexivity]. Defined.

(** C2 as stated fails: on a page whose terms are not accepted,
    [validateTerms] fails and shows its message, yet the checkbox does
    not carry the marker afterwards. *)
Lemma terms_failure_sets_no_marker :
  (exists p',
     validateTerms (the_refs terms_unchecked_page) terms_unchecked_page
     = Some (false, p')
     /\ error_text FTerms p' = Some (u "You must accept the terms.")
     /\ marked FTerms p' = Some false)
  /\ ~ (forall f p, fields_present p = true ->
          forall b p', validator f (the_refs p) p = Some (b, p') ->
                       marked f p' = Some (negb b)).
Proof.
  split.
  - eexists. split; [vm_compute; reflexivity|]. split; vm_compute; reflexivity.
  - intros Hclaim.
    specialize (Hclaim FTerms terms_unchecked_page eq_refl false _ eq_refl).
    vm_compute in Hclaim. discriminate Hclaim.
Qed.

(** C10. [validateConfirm] accepts exactly when the raw value of the
    confirm field equals the raw value of the password field, and asks
    nothing else: with both fields empty it accepts and clears the error
    of the confirm field, although [validatePassword] rejects the empty
    password. *)
Theorem confirm_compares_raw_values (p : Page) :
  fields_present p = true ->
  let R := the_refs p in
  exists b p',
    validateConfirm R p = Some (b, p')
    /\ (b = true <-> value_of (confirmInput R) p = value_of (passwordInput R) p)
    /\ (value_of (confirmInput R) p = [] -> value_of (passwordInput R) p = [] ->
        b = true /\ error_text FConfirm p' = Some []
        /\ marked FConfirm p' = Some false
        /\ result (validatePassword R) p = Some false).
Proof.
  intros H R. subst R.
  exists (passes FConfirm (the_refs p) p),
         (effect FConfirm (passes FConfirm (the_refs p) p) p).
  split; [exact (validator_run FConfirm p H)|]. split; [apply str_eqb_eq|].
  intros Hc Hp.
  assert (Hb : passes FConfirm (the_refs p) p = true).
  { cbn [passes]. now rewrite Hc, Hp. }
  split; [exact Hb|]. split; [|split].
  - rewrite error_text_effect by exact H. now rewrite Hb.
  - rewrite marked_effect by (exact H || discriminate). now rewrite Hb.
  - pose proof (result_validator FPassword p H) as Hr.
    cbn [validator passes] in Hr. rewrite Hr, Hp. reflexivity.
Qed.

Lemma confirm_compares_raw_values_blank :
  fields_present blank_page = true
  /\ let R := the_refs blank_page in
     exists b p',
       validateConfirm R blank_page = Some (b, p')
       /\ (b = true <-> value_of (confirmInput R) blank_page
                        = value_of (passwordInput R) blank_page)
       /\ (value_of (confirmInput R) blank_page = [] ->
           value_of (passwordInput R) blank_page = [] ->
           b = true /\ error_text FConfirm p' = Some []
           /\ marked FConfirm p' = Some false
           /\ result (validatePassword R) blank_page = Some false).
Proof. split; [reflexivity | apply (confirm_compares_raw_values blank_page); reflexivity]. Defined.

(** ** The aggregate validation of the submit handler *)

(** C3. The aggregate validation runs all seven validators: the array it
    reduces holds the result of each of them, it returns true exactly when
    each of them returns true on the page, and after it every field
    displays the outcome of its own validator, whichever validators failed
    before. *)
Theorem validateAll_runs_every_validator (p : Page) :
  fields_present p = true ->
  let R := the_refs p in
  exists b p',
    validateAll R p = Some (b, p')
    /\ (exists results,
          result (run_validators R) p = Some results
          /\ Forall2 (fun f v => result (validator f R) p = Some v) all_fields results)
    /\ (b = true <-> forall f, result (validator f R) p = Some true)
    /\ forall f, exists v,
         result (validator f R) p = Some v
         /\ error_text f p' = Some (if v then [] else error_message f)
         /\ (f <> FTerms -> marked f p' = Some (negb v)).
Proof.
  intros H R. subst R.
  exists (forallb (fun f => passes f (the_refs p) p) all_fields),
         (refreshed all_fields (the_refs p) p p).
  split; [now apply validateAll_run|]. split.
  { exists (map (fun f => passes f (the_refs p) p) all_fields). split.
    - unfold result. now rewrite (run_validators_run_at H (same_inputs_refl p)).
    - unfold all_fields. cbn [map]. repeat constructor; now apply result_validator. }
  split.
  - rewrite forallb_forall. split.
    + intros Hall f. rewrite result_validator by exact H.
      f_equal. apply Hall, all_fields_In.
    + intros Hall f _. specialize (Hall f).
      rewrite result_validator in Hall by exact H. congruence.
  - intros f. exists (passes f (the_refs p) p).
    split; [now apply result_validator|]. split.
    + now rewrite error_text_refreshed
        by (exact H || apply all_fields_NoDup || apply all_fields_In).
    + intros Hf. now apply marked_refreshed;
        try (exact H || apply all_fields_NoDup || apply all_fields_In).
Qed.

Lemma validateAll_runs_every_validator_blank :
  fields_present blank_page = true
  /\ let R := the_refs blank_page in
     exists b p',
       validateAll R blank_page = Some (b, p')
       /\ (exists results,
             result (run_validators R) blank_page = Some results
             /\ Forall2 (fun f v => result (validator f R) blank_page = Some v)
                        all_fields results)
       /\ (b = true <-> forall f, result (validator f R) blank_page = Some true)
       /\ forall f, exists v,
            result (validator f R) blank_page = Some v
            /\ error_text f p' = Some (if v then [] else error_message f)
            /\ (f <> FTerms -> marked f p' = Some (negb v)).
Proof.
  split; [reflexivity | apply (validateAll_runs_every_validator blank_page); reflexivity].
Defined.

(** ** Changing one field *)

Lemma ids_change f v c p : map id (elements (change f v c p)) = map id (elements p).
Proof.
  unfold change. destruct (lookup_id (field_id f) p) as [i|]; [|reflexivity].
  simpl. now apply ids_alter.
Qed.

Lemma lookup_id_change f v c p i : lookup_id i (change f v c p) = lookup_id i p.
Proof. apply find_id_ids, ids_change. Qed.

Lemma the_refs_change f v c p : the_refs (change f v c p) = the_refs p.
Proof. unfold the_refs. now rewrite !lookup_id_change. Qed.

Lemma fields_present_change f v c p : fields_present (change f v c p) = fields_present p.
Proof. unfold fields_present, present. simpl. now rewrite !lookup_id_change. Qed.

Lemma elem_change_other f g v c p :
  f <> g ->
  elem (lookup_id (field_id g) p) (change f v c p) = elem (lookup_id (field_id g) p) p.
Proof.
  intros Hfg. destruct (lookup_id (field_id g) p) as [k|] eqn:Hk; [|reflexivity].
  unfold change. destruct (lookup_id (field_id f) p) as [i|] eqn:Hi; [|reflexivity].
  simpl. apply list_lookup_alter_ne. intros ->.
  apply Hfg, field_id_inj. exact (lookup_id_inj _ _ _ Hi Hk).
Qed.

Lemma passes_change_other f g v c p :
  f <> g -> ~ (f = FPassword /\ g = FConfirm) ->
  passes g (the_refs p) (change f v c p) = passes g (the_refs p) p.
Proof.
  intros Hfg Hpc.
  assert (Hv : forall h, f <> h ->
             value_of (field_ref h (the_refs p)) (change f v c p)
             = value_of (field_ref h (the_refs p)) p).
  { intros h Hh. rewrite field_ref_the_refs. unfold value_of.
    now rewrite elem_change_other. }
  assert (Hc : forall h, f <> h ->
             checked_of (field_ref h (the_refs p)) (change f v c p)
             = checked_of (field_ref h (the_refs p)) p).
  { intros h Hh. rewrite field_ref_the_refs. unfold checked_of.
    now rewrite elem_change_other. }
  assert (Hpw : g = FConfirm -> f <> FPassword).
  { intros -> ->. now apply Hpc. }
  destruct g; cbn [passes];
    [ pose proof (Hv FName Hfg) as E | pose proof (Hv FEmail Hfg) as E
    | pose proof (Hv FPassword Hfg) as E
    | pose proof (Hv FConfirm Hfg) as E;
      pose proof (Hv FPassword (Hpw eq_refl)) as E'; cbn [field_ref] in E'; rewrite E'
    | pose proof (Hv FAge Hfg) as E | pose proof (Hv FWebsite Hfg) as E
    | pose proof (Hc FTerms Hfg) as E ];
    cbn [field_ref] in E; now rewrite E.
Qed.

Lemma value_change_same f v c p :
  fields_present p = true ->
  value_of (field_ref f (the_refs p)) (change f v c p) = v.
Proof.
  intros H. destruct (fields_present_field f p H) as (i & j & Hi & _).
  rewrite field_ref_the_refs. unfold value_of, change. rewrite Hi. simpl.
  destruct (lookup_id_Some _ _ Hi) as (e & He & _).
  now rewrite list_lookup_alter_eq, He.
Qed.

Lemma result_validator_change f g v c p :
  fields_present p = true ->
  result (validator g (the_refs p)) (change f v c p)
  = Some (passes g (the_refs p) (change f v c p)).
Proof.
  intros H. rewrite <- (the_refs_change f v c p).
  apply result_validator. now rewrite fields_present_change.
Qed.

(** C6, as the code has it.  From a page on which every validator
    accepts, changing one field so that its own validator rejects makes
    the aggregate validation fail.  The validity of every other field
    stays as it was, with one exception: when the changed field is the
    password, the confirm field, which is compared with it, becomes
    invalid too. *)
Theorem single_change_independence (p : Page) (f : Field) (v : JSString) (c : bool) :
  fields_present p = true ->
  (forall g, result (validator g (the_refs p)) p = Some true) ->
  result (validator f (the_refs p)) (change f v c p) = Some false ->
  result (validateAll (the_refs p)) (change f v c p) = Some false
  /\ (forall g, g <> f -> ~ (f = FPassword /\ g = FConfirm) ->
        result (validator g (the_refs p)) (change f v c p) = Some true)
  /\ (f = FPassword ->
        result (validator FConfirm (the_refs p)) (change f v c p) = Some false).
Proof.
  intros H Hall Hf.
  assert (H1 : fields_present (change f v c p) = true)
    by now rewrite fields_present_change.
  assert (Hp : forall g, passes g (the_refs p) p = true).
  { intros g. specialize (Hall g). rewrite result_validator in Hall by exact H.
    congruence. }
  rewrite result_validator_change in Hf by exact H.
  assert (Hf' : passes f (the_refs p) (change f v c p) = false) by congruence.
  split; [|split].
  - unfold result. rewrite <- (the_refs_change f v c p), validateAll_run by exact H1.
    rewrite the_refs_change. cbn [option_map fst]. f_equal.
    apply not_true_is_false. intros Hb. rewrite forallb_forall in Hb.
    specialize (Hb f (all_fields_In f)). congruence.
  - intros g Hg Hpc. rewrite result_validator_change by exact H.
    rewrite passes_change_other by (assumption || congruence). now rewrite Hp.
  - intros ->. rewrite result_validator_change by exact H. f_equal.
    cbn [passes] in Hf' |- *.
    pose proof (value_change_same FPassword v c p H) as Hv. cbn [field_ref] in Hv.
    rewrite Hv in Hf' |- *.
    assert (Hcv : value_of (confirmInput (the_refs p)) (change FPassword v c p)
                  = value_of (confirmInput (the_refs p)) p).
    { change (confirmInput (the_refs p)) with (lookup_id (field_id FConfirm) p).
      unfold value_of. now rewrite elem_change_other. }
    rewrite Hcv. apply str_eqb_neq. intros Heq.
    pose proof (Hp FConfirm) as Hc. pose proof (Hp FPassword) as Hpw.
    cbn [passes] in Hc, Hpw. apply str_eqb_eq in Hc.
    rewrite <- Hc, Heq in Hpw. congruence.
Qed.

Lemma single_change_independence_age :
  fields_present valid_page = true
  /\ (forall g, result (validator g (the_refs valid_page)) valid_page = Some true)
  /\ result (validator FAge (the_refs valid_page)) (change FAge (u "12") false valid_page)
     = Some false
  /\ result (validateAll (the_refs valid_page)) (change FAge (u "12") false valid_page)
     = Some false
  /\ (forall g, g <> FAge -> ~ (FAge = FPassword /\ g = FConfirm) ->
        result (validator g (the_refs valid_page))
               (change FAge (u "12") false valid_page) = Some true)
  /\ (FAge = FPassword ->
        result (validator FConfirm (the_refs valid_page))
               (change FAge (u "12") false valid_page) = Some false).
Proof.
  assert (Hall : forall g, result (validator g (the_refs valid_page)) valid_page = Some true)
    by (intros g; destruct g; vm_compute; reflexivity).
  split; [reflexivity|]. split; [exact Hall|]. split; [vm_compute; reflexivity|].
  apply (@single_change_independence valid_page FAge (u "12") false);
    [reflexivity | exact Hall | vm_compute; reflexivity].
Defined.

(** C6 as stated fails for the password field: on a page where every
    field is valid, replacing the password by ["x"] makes the confirm
    field, which still holds the old password, invalid as well. *)
Lemma password_change_breaks_confirm :
  (forall g, result (validator g (the_refs valid_page)) valid_page = Some true)
  /\ result (validator FPassword (the_refs valid_page))
            (change FPassword (u "x") false valid_page) = Some false
  /\ result (validator FConfirm (the_refs valid_page))
            (change FPassword (u "x") false valid_page) = Some false
  /\ ~ (forall p f v c,
          fields_present p = true ->
          (forall g, result (validator g (the_refs p)) p = Some true) ->
          result (validator f (the_refs p)) (change f v c p) = Some false ->
          result (validateAll (the_refs p)) (change f v c p) = Some false
          /\ forall g, g <> f ->
               result (validator g (the_refs p)) (change f v c p) = Some true).
Proof.
  assert (Hall : forall g, result (validator g (the_refs valid_page)) valid_page
                           = Some true)
    by (intros g; destruct g; vm_compute; reflexivity).
  split; [exact Hall|]. split; [vm_compute; reflexivity|].
  split; [vm_compute; reflexivity|].
  intros Hclaim.
  destruct (Hclaim valid_page FPassword (u "x") false) as [_ Hother].
  - vm_compute; reflexivity.
  - exact Hall.
  - vm_compute; reflexivity.
  - specialize (Hother FConfirm ltac:(discriminate)).
    vm_compute in Hother. discriminate Hother.
Qed.

(** ** The submit handler *)

Lemma ready_parts p :
  ready p = true ->
  fields_present p = true
  /\ exists s fm, lookup_id (u "form-success") p = Some s
                  /\ lookup_id (u "signup-form") p = Some fm.
Proof.
  unfold ready. intros H. apply andb_true_iff in H as [H Hs].
  apply andb_true_iff in H as [H Hf]. split; [exact H|].
  apply present_Some in Hs as [s Hs]. apply present_Some in Hf as [fm Hf]. eauto.
Qed.

Lemma same_inputs_set_text i t p : same_inputs (set_text_at i t p) p.
Proof. unfold same_inputs, set_text_at. simpl. now apply inputs_alter. Qed.

Lemma set_textContent_run i t p :
  (i < length (elements p))%nat ->
  set_textContent (Some i) t p = Some (tt, set_text_at i t p).
Proof. intros Hi. unfold set_textContent. now rewrite update_run. Qed.

Lemma same_inputs_length p q : same_inputs p q -> length (elements p) = length (elements q).
Proof.
  unfold same_inputs. intros H.
  rewrite <- (length_map inputs (elements p)), H. apply length_map.
Qed.

Lemma ids_on_success s fm q :
  map id (elements (on_success s fm q)) = map id (elements q).
Proof.
  unfold on_success. simpl. rewrite !map_map.
  rewrite <- (ids_alter (with_textContent success_message) s (elements q))
    by reflexivity.
  apply map_ext. intros e. unfold drop_class, reset_owned.
  destruct (form_owner e) as [j|]; [destruct (Nat.eqb j fm)|];
    match goal with |- context [has_class ?c ?x] => destruct (has_class c x) end;
    reflexivity.
Qed.

(** Whether [form.reset] is the method only depends on what no listener
    writes. *)
Lemma shadowed_inputs i nm (l l' : list Element) :
  map inputs l = map inputs l' -> shadowed i nm l = shadowed i nm l'.
Proof.
  unfold shadowed. revert l'. induction l as [|x l IH]; intros [|y l']; simpl; try easy.
  intros [= Hid _ _ _ _ Hfo Hnm _ _ Hl]. rewrite (IH l' Hl).
  unfold owned_by, called. now rewrite Hid, Hfo, Hnm.
Qed.

Lemma same_inputs_reset_callable p q :
  same_inputs p q -> reset_callable p = reset_callable q.
Proof.
  intros H. unfold reset_callable. rewrite (same_inputs_lookup_id _ H).
  destruct (lookup_id (u "signup-form") q) as [fm|]; [|reflexivity].
  pose proof (inputs_lookup (elements p) (elements q) fm H) as Hk.
  rewrite (shadowed_inputs fm (u "reset") _ _ H).
  destruct (elements p !! fm) as [x|], (elements q !! fm) as [y|]; simpl in Hk;
    try discriminate Hk; [|reflexivity].
  injection Hk as _ _ _ _ _ _ _ _ Hform. now rewrite Hform.
Qed.

Lemma reset_run fm p :
  lookup_id (u "signup-form") p = Some fm ->
  reset (Some fm) p
  = if reset_callable p
    then Some (tt, mkPage (map (reset_owned fm) (elements p)) (activeElement p))
    else None.
Proof.
  intros Hf. unfold reset, reset_callable. rewrite Hf.
  destruct (lookup_id_Some _ _ Hf) as (x & -> & _). reflexivity.
Qed.

(** The handler, stage by stage: it throws only when the validation has
    passed and [form.reset] is not the method. *)
Lemma onSubmit_run p year e :
  ready p = true ->
  exists s fm,
    lookup_id (u "form-success") p = Some s
    /\ lookup_id (u "signup-form") p = Some fm
    /\ let R := the_refs p in
       let q := refreshed all_fields R p (set_text_at s [] p) in
       onSubmit R year e p
       = if forallb (fun f => passes f R p) all_fields
         then if reset_callable p
              then Some (mkEvent true, stamp_year year (on_success s fm q))
              else None
         else Some (mkEvent true, stamp_year year (on_failure q)).
Proof.
  intros Hr. destruct (ready_parts p Hr) as (H & s & fm & Hs & Hf).
  exists s, fm. split; [exact Hs|]. split; [exact Hf|]. intros R q. subst R.
  pose proof (lookup_id_lt _ _ Hs) as Ls. pose proof (lookup_id_lt _ _ Hf) as Lf.
  assert (Hq : same_inputs q p).
  { eapply same_inputs_trans; [apply same_inputs_refreshed|apply same_inputs_set_text]. }
  unfold onSubmit.
  change (successBox (the_refs p)) with (lookup_id (u "form-success") p).
  change (form (the_refs p)) with (lookup_id (u "signup-form") p). rewrite Hs, Hf.
  rewrite (bind_run _ _ _ (set_textContent_run [] p Ls)).
  rewrite (bind_run _ _ _ (validateAll_run_at H (same_inputs_set_text s [] p))).
  fold q.
  assert (Hyear : forall q', getElementById (u "year") q' = Some (lookup_id (u "year") q', q'))
    by reflexivity.
  assert (Hstamp : forall q',
             (do footerYear <- getElementById (u "year");
              run (match footerYear with
                   | Some _ => set_textContent footerYear year
                   | None => ret tt
                   end); ret (mkEvent true)) q'
             = Some (mkEvent true, stamp_year year q')).
  { intros q'. rewrite (bind_run _ _ _ (Hyear q')). unfold stamp_year.
    destruct (lookup_id (u "year") q') as [y|] eqn:Hy; [|reflexivity].
    now rewrite (bind_run _ _ _ (set_textContent_run year q' (lookup_id_lt _ _ Hy))). }
  destruct (forallb (fun f => passes f (the_refs p) p) all_fields); cbv iota.
  - rewrite <- (same_inputs_length Hq) in Ls, Lf.
    assert (Hq' : same_inputs (set_text_at s success_message q) p).
    { eapply same_inputs_trans; [apply same_inputs_set_text|exact Hq]. }
    assert (Hres : reset (Some fm) (set_text_at s success_message q)
                   = if reset_callable p
                     then Some (tt, mkPage (map (reset_owned fm)
                                              (elements (set_text_at s success_message q)))
                                           (activeElement q))
                     else None).
    { rewrite reset_run by now rewrite (same_inputs_lookup_id _ Hq').
      now rewrite (same_inputs_reset_callable Hq'). }
    destruct (reset_callable p).
    + assert (Hsucc : (run set_textContent (Some s) success_message;
                       run reset (Some fm); remove_class_everywhere (u "invalid")) q
                      = Some (tt, on_success s fm q)).
      { rewrite (bind_run _ _ _ (set_textContent_run success_message q Ls)).
        now rewrite (bind_run _ _ _ Hres). }
      rewrite (bind_run _ _ _ Hsucc). apply Hstamp.
    + unfold bind at 1.
      assert (Hthrow : (run set_textContent (Some s) success_message;
                        run reset (Some fm); remove_class_everywhere (u "invalid")) q
                       = None).
      { rewrite (bind_run _ _ _ (set_textContent_run success_message q Ls)).
        unfold bind. now rewrite Hres. }
      now rewrite Hthrow.
  - assert (Hfail : (do firstInvalid <- querySelector_class (u "invalid");
                     match firstInvalid with
                     | Some _ => focus firstInvalid
                     | None => ret tt
                     end) q = Some (tt, on_failure q)).
    { unfold bind, querySelector_class, on_failure, first_marked.
      destruct (find_index (has_class (u "invalid")) (elements q)) as [i|] eqn:Hi;
        [|reflexivity].
      destruct (find_index_Some _ _ Hi) as (x & Hx & _).
      unfold focus. rewrite Hx. now destruct (focusable x). }
    rewrite (bind_run _ _ _ Hfail). apply Hstamp.
Qed.


Lemma lookup_map {A B} (f : A -> B) (l : list A) i :
  map f l !! i = option_map f (l !! i).
Proof.
  revert i. induction l as [|x l IH]; intros [|i]; simpl; try reflexivity. apply IH.
Qed.







Lemma elements_on_failure q : elements (on_failure q) = elements q.
Proof.
  unfold on_failure. destruct (first_marked q) as [i|]; [|reflexivity].
  destruct (elements q !! i) as [x|]; [|reflexivity]. now destruct (focusable x).
Qed.





(** A passing submit throws when the form owns a control called [reset]:
    [form.reset] is then that control. *)
Lemma shadowed_reset_makes_passing_submit_throw :
  ready reset_in_form_page = true
  /\ reset_callable reset_in_form_page = false
  /\ result (validateAll (the_refs reset_in_form_page)) reset_in_form_page = Some true
  /\ onSubmit (the_refs reset_in_form_page) (u "2026") (mkEvent false) reset_in_form_page
     = None.
Proof. repeat split; vm_compute; reflexivity. Qed.

(** A failing submit leaves the focus where it was when the first
    element that carries the marker cannot take it. *)
Lemma unfocusable_first_marker_keeps_focus :
  first_marked marked_form_page = Some 0%nat
  /\ option_map focusable (elements marked_form_page !! 0%nat) = Some false
  /\ option_map (fun r => activeElement (snd r))
       (onSubmit (the_refs marked_form_page) (u "2026") (mkEvent false) marked_form_page)
     = Some (activeElement marked_form_page).
Proof. repeat split; vm_compute; reflexivity. Qed.

(** ** Typing into a field *)

Lemma ids_type_into f v p : map id (elements (type_into f v p)) = map id (elements p).
Proof.
  unfold type_into. destruct (lookup_id (field_id f) p) as [i|]; [|reflexivity].
  simpl. now apply ids_alter.
Qed.

Lemma the_refs_type_into f v p : the_refs (type_into f v p) = the_refs p.
Proof.
  unfold the_refs, lookup_id. now rewrite !(find_id_ids _ _ _ (ids_type_into f v p)).
Qed.

Lemma fields_present_type_into f v p :
  fields_present (type_into f v p) = fields_present p.
Proof.
  unfold fields_present, present. simpl. unfold lookup_id.
  now rewrite !(find_id_ids _ _ _ (ids_type_into f v p)).
Qed.

Lemma value_type_into f v p :
  fields_present p = true ->
  value_of (field_ref f (the_refs p)) (type_into f v p) = v.
Proof.
  intros H. destruct (fields_present_field f p H) as (i & j & Hi & _).
  rewrite field_ref_the_refs. unfold value_of, type_into. rewrite Hi. simpl.
  destruct (lookup_id_Some _ _ Hi) as (e & He & _).
  now rewrite list_lookup_alter_eq, He.
Qed.

(** What a validator returns and shows once [v] is typed into its field. *)
Lemma validator_typed f v p :
  fields_present p = true ->
  let p1 := type_into f v p in
  validator f (the_refs p) p1
  = Some (passes f (the_refs p) p1, effect f (passes f (the_refs p) p1) p1)
  /\ error_text f (effect f (passes f (the_refs p) p1) p1)
     = Some (shown f (passes f (the_refs p) p1)).
Proof.
  intros H p1. subst p1.
  assert (H1 : fields_present (type_into f v p) = true)
    by now rewrite fields_present_type_into.
  split.
  - rewrite <- (the_refs_type_into f v p). now apply validator_run.
  - now apply error_text_effect.
Qed.

(** ** Numbers *)

Lemma SFcompare_antisym x y : SFcompare y x = option_map CompOpp (SFcompare x y).
Proof.
  destruct x as [sx|sx| |sx mx ex], y as [sy|sy| |sy my ey]; simpl;
    try destruct sx; try destruct sy; try reflexivity;
    rewrite (Z.compare_antisym ex ey); destruct (ex ?= ey)%Z; simpl;
    try reflexivity;
    rewrite !Pos.compare_cont_spec; simpl;
    rewrite (Pos.compare_antisym mx my); destruct (mx ?= my)%positive; reflexivity.
Qed.

Lemma not_lt_le x y : x <> S754_nan -> y <> S754_nan ->
  SFltb x y = false <-> SFleb y x = true.
Proof.
  intros Hx Hy. unfold SFltb, SFleb. rewrite (SFcompare_antisym x y).
  destruct (SFcompare x y) as [[| |]|] eqn:E; simpl; try (split; congruence).
  destruct x, y; try contradiction; simpl in E; discriminate E.
Qed.

Lemma age_in_range_spec v : age_in_range v = true <-> numeric_in_range v.
Proof.
  assert (H13 : num 13 <> S754_nan) by (vm_compute; discriminate).
  assert (H120 : num 120 <> S754_nan) by (vm_compute; discriminate).
  unfold age_in_range, numeric_in_range, num_lt, num_gt, num_le.
  rewrite negb_true_iff, !orb_false_iff, negb_false_iff.
  split.
  - intros [[Ht Hlo] Hhi].
    assert (Hn : v <> S754_nan) by (intros ->; discriminate Ht).
    split; [exact Hn|]. split; [intros s ->; discriminate Ht|].
    split; [now apply not_lt_le | now apply (not_lt_le H120 Hn)].
  - intros (Hn & Hz & Hlo & Hhi). split; [split|].
    + destruct v; try reflexivity; [now destruct (Hz s)|now destruct Hn].
    + now apply not_lt_le.
    + now apply (not_lt_le H120 Hn).
Qed.

(** ** The age field *)

(** C5. [validateAge] coerces the text of the age field with [Number]
    and accepts exactly when the result is numeric, not zero, and
    between 13 and 120 inclusive.  ["13"] and ["120"] are accepted;
    ["12"], ["121"], the empty string, ["abc"] and ["0"] are rejected.
    The empty string and ["0"] coerce to zero and ["abc"] to NaN, all
    falsy, and every text with a falsy coercion is rejected with the
    same message. *)
Theorem age_validation (p : Page) (s : JSString) :
  fields_present p = true ->
  exists b p',
    validateAge (the_refs p) (type_into FAge s p) = Some (b, p')
    /\ (b = true <-> numeric_in_range (Number s))
    /\ (In s [u "13"; u "120"] -> b = true)
    /\ (In s [u "12"; u "121"; []; u "abc"; u "0"] -> b = false)
    /\ (In s [[]; u "abc"; u "0"] -> truthy (Number s) = false)
    /\ (truthy (Number s) = false ->
        b = false /\ error_text FAge p' = Some (u "Enter a valid age (13 - 120)."))
    /\ Number [] = S754_zero false
    /\ Number (u "0") = S754_zero false
    /\ Number (u "abc") = S754_nan.
Proof.
  intros H. destruct (validator_typed FAge s p H) as [Hrun Htext].
  pose proof (value_type_into FAge s p H) as Hv.
  cbn [validator passes field_ref] in Hrun, Htext, Hv. rewrite Hv in Hrun, Htext.
  eexists _, _. split; [exact Hrun|]. split; [apply age_in_range_spec|].
  split; [|split; [|split; [|split]]].
  - intros [<-|[<-|[]]]; vm_compute; reflexivity.
  - intros [<-|[<-|[<-|[<-|[<-|[]]]]]]; vm_compute; reflexivity.
  - intros [<-|[<-|[<-|[]]]]; vm_compute; reflexivity.
  - intros Ht. assert (Hb : age_in_range (Number s) = false).
    { unfold age_in_range. now rewrite Ht. }
    split; [exact Hb|]. rewrite Htext, Hb. reflexivity.
  - repeat split; vm_compute; reflexivity.
Qed.

Lemma age_validation_blank_13 :
  fields_present blank_page = true
  /\ exists b p',
       validateAge (the_refs blank_page) (type_into FAge (u "13") blank_page) = Some (b, p')
       /\ (b = true <-> numeric_in_range (Number (u "13")))
       /\ (In (u "13") [u "13"; u "120"] -> b = true)
       /\ (In (u "13") [u "12"; u "121"; []; u "abc"; u "0"] -> b = false)
       /\ (In (u "13") [[]; u "abc"; u "0"] -> truthy (Number (u "13")) = false)
       /\ (truthy (Number (u "13")) = false ->
           b = false /\ error_text FAge p' = Some (u "Enter a valid age (13 - 120)."))
       /\ Number [] = S754_zero false
       /\ Number (u "0") = S754_zero false
       /\ Number (u "abc") = S754_nan.
Proof.
  split; [vm_compute; reflexivity|].
  apply (age_validation blank_page (u "13")). vm_compute; reflexivity.
Defined.

(** ** The matcher finds exactly the declared matches *)

Lemma if_or (a b : bool) : (if a then true else b) = true <-> a = true \/ b = true.
Proof. destruct a, b; intuition discriminate. Qed.

Lemma if_and (a b : bool) : (if a then b else false) = true <-> a = true /\ b = true.
Proof. destruct a, b; intuition discriminate. Qed.

Lemma star_loop_correct inp r k :
  (forall s k', m inp r s k' = true <-> exists s', Matches inp r s s' /\ k' s' = true) ->
  forall fuel s, (length s <= fuel)%nat ->
    star_loop (m inp r) k fuel s = true
    <-> exists s', Matches inp (Star r) s s' /\ k s' = true.
Proof.
  intros IHr. induction fuel as [|fuel IH]; intros s Hlen; simpl.
  - split.
    + intros Hk. exists s. split; [constructor|exact Hk].
    + intros (s' & Hm & Hk). inversion Hm; subst; [exact Hk|lia].
  - rewrite if_or, IHr. split.
    + intros [(s1 & H1 & Hc)|Hk].
      * apply if_and in Hc as [Hlt Hloop]. apply Nat.ltb_lt in Hlt.
        apply IH in Hloop as (s' & Hs & Hk); [|lia].
        exists s'. split; [|exact Hk]. now apply M_StarS with s1.
      * exists s. split; [constructor|exact Hk].
    + intros (s' & Hm & Hk). inversion Hm; subst.
      * now right.
      * left. exists s1. split; [assumption|].
        apply if_and. split; [now apply Nat.ltb_lt|].
        apply IH; [lia|]. now exists s'.
Qed.

Theorem m_correct inp r s k :
  m inp r s k = true <-> exists s', Matches inp r s s' /\ k s' = true.
Proof.
  revert s k. induction r as [|p|r1 IH1 r2 IH2|r1 IH1 r2 IH2|r IH|r IH| |];
    intros s k; simpl.
  - split.
    + intros Hk. exists s. split; [constructor|exact Hk].
    + intros (s' & Hm & Hk). now inversion Hm; subst.
  - destruct s as [|c s].
    + split; [discriminate|]. intros (s' & Hm & _). inversion Hm.
    + rewrite if_and. split.
      * intros [Hp Hk]. exists s. split; [now constructor|exact Hk].
      * intros (s' & Hm & Hk). inversion Hm; subst. now split.
  - rewrite IH1. split.
    + intros (s1 & H1 & H2). apply IH2 in H2 as (s2 & H2 & Hk).
      exists s2. split; [now apply M_Seq with s1|exact Hk].
    + intros (s2 & Hm & Hk). inversion Hm; subst.
      exists s1. split; [assumption|]. apply IH2. now exists s2.
  - rewrite if_or, IH1, IH2. split.
    + intros [(s' & Hm & Hk)|(s' & Hm & Hk)]; exists s'; split; try exact Hk.
      * now apply M_AltL.
      * now apply M_AltR.
    + intros (s' & Hm & Hk). inversion Hm; subst; [left|right]; now exists s'.
  - now apply star_loop_correct.
  - rewrite if_and, IH. split.
    + intros [(s1 & H1 & _) Hk]. exists s. split; [now apply M_Look with s1|exact Hk].
    + intros (s' & Hm & Hk). inversion Hm; subst. split; [|exact Hk]. now exists s1.
  - rewrite if_and, Nat.eqb_eq. split.
    + intros [Hl Hk]. exists s. split; [now constructor|exact Hk].
    + intros (s' & Hm & Hk). inversion Hm; subst. now split.
  - destruct s as [|c s].
    + split.
      * intros Hk. exists []. split; [constructor|exact Hk].
      * intros (s' & Hm & Hk). now inversion Hm; subst.
    + split; [discriminate|]. intros (s' & Hm & _). inversion Hm.
Qed.

(** An anchor-free pattern consumes one of its words. *)
Lemma Matches_Lang inp r s s' :
  anchor_free r = true -> Matches inp r s s' -> exists w, s = w ++ s' /\ Lang r w.
Proof.
  intros Haf Hm. induction Hm; simpl in Haf; try discriminate Haf.
  - exists []. now split.
  - exists [c]. split; [reflexivity|]. now exists c.
  - apply andb_true_iff in Haf as [Ha1 Ha2].
    destruct (IHHm1 Ha1) as (w1 & -> & L1). destruct (IHHm2 Ha2) as (w2 & -> & L2).
    exists (w1 ++ w2). split; [now rewrite <- app_assoc|]. now exists w1, w2.
  - apply andb_true_iff in Haf as [Ha1 _]. destruct (IHHm Ha1) as (w & -> & L).
    exists w. split; [reflexivity|now left].
  - apply andb_true_iff in Haf as [_ Ha2]. destruct (IHHm Ha2) as (w & -> & L).
    exists w. split; [reflexivity|now right].
  - exists []. split; [reflexivity|]. exists []. split; [reflexivity|constructor].
  - destruct (IHHm1 Haf) as (w1 & -> & L1).
    destruct (IHHm2 Haf) as (w2 & -> & ws & -> & Lws).
    exists (w1 ++ concat ws). split; [now rewrite <- app_assoc|].
    exists (w1 :: ws). split; [reflexivity|now constructor].
Qed.

Lemma Lang_Matches inp r w s' :
  anchor_free r = true -> Lang r w -> Matches inp r (w ++ s') s'.
Proof.
  revert w s'. induction r as [|p|r1 IH1 r2 IH2|r1 IH1 r2 IH2|r IH|r IH| |];
    intros w s' Haf L; simpl in Haf, L; try discriminate Haf.
  - subst w. constructor.
  - destruct L as (c & -> & Hp). now constructor.
  - apply andb_true_iff in Haf as [Ha1 Ha2]. destruct L as (w1 & w2 & -> & L1 & L2).
    rewrite <- app_assoc. apply M_Seq with (w2 ++ s'); [now apply IH1|now apply IH2].
  - apply andb_true_iff in Haf as [Ha1 Ha2].
    destruct L as [L|L]; [apply M_AltL; now apply IH1|apply M_AltR; now apply IH2].
  - destruct L as (ws & -> & Lws). induction Lws as [|x ws Hx Hws IHws]; simpl.
    + constructor.
    + destruct x as [|c x]; [exact IHws|].
      rewrite <- app_assoc. apply M_StarS with (concat ws ++ s').
      * now apply IH.
      * rewrite !length_app. simpl. lia.
      * exact IHws.
Qed.

(** *** Patterns anchored at both ends *)

Lemma search_after_start inp r s :
  (length s < length inp)%nat -> search inp (Seq Bol r) s = false.
Proof.
  induction s as [|c s IH]; intros Hl; cbn [search m].
  - assert (E : (length (@nil N) =? length inp)%nat = false)
      by (apply Nat.eqb_neq; simpl in *; lia).
    now rewrite E.
  - assert (E : (length (c :: s) =? length inp)%nat = false)
      by (apply Nat.eqb_neq; simpl in *; lia).
    rewrite E. apply IH. simpl in Hl. lia.
Qed.

Lemma test_anchored r inp : test (Seq Bol r) inp = m inp r inp (fun _ => true).
Proof.
  unfold test. destruct inp as [|c s]; cbn [search m].
  - rewrite Nat.eqb_refl. now destruct (m [] r [] (fun _ => true)).
  - rewrite Nat.eqb_refl.
    rewrite (search_after_start (c :: s) r s) by (simpl; lia).
    now destruct (m (c :: s) r (c :: s) (fun _ => true)).
Qed.

Lemma Matches_items_Eol inp (items : list regex) s s' :
  forallb anchor_free items = true ->
  Matches inp (seq (items ++ [Eol])) s s' <-> s' = [] /\ Lang (seq items) s.
Proof.
  intros Haf. revert s. induction items as [|r items IH]; intros s; simpl.
  - split.
    + intros Hm. inversion Hm; subst.
      match goal with H : Matches _ Eol _ _ |- _ => inversion H; subst end.
      match goal with H : Matches _ Empty _ _ |- _ => inversion H; subst end.
      now split.
    + intros [-> ->]. apply M_Seq with []; constructor.
  - simpl in Haf. apply andb_true_iff in Haf as [Hr Hi]. split.
    + intros Hm. inversion Hm; subst.
      match goal with H : Matches _ (seq _) _ _ |- _ => apply (IH Hi) in H as [-> L] end.
      match goal with H : Matches _ r _ _ |- _ =>
        apply (Matches_Lang Hr) in H as (w & -> & Lw) end.
      split; [reflexivity|]. exists w, s1. now repeat split.
    + intros [-> (w1 & w2 & -> & L1 & L2)].
      apply M_Seq with w2; [|now apply IH].
      pose proof (Lang_Matches inp r w1 w2 Hr L1) as Hm. exact Hm.
Qed.

(** A pattern [^ items $] tests whether the whole text is a word of [items]. *)
Theorem test_whole inp (items : list regex) :
  forallb anchor_free items = true ->
  test (seq (Bol :: items ++ [Eol])) inp = true <-> Lang (seq items) inp.
Proof.
  intros Haf. cbn [seq fold_right]. fold (seq (items ++ [Eol])).
  rewrite test_anchored, m_correct. split.
  - intros (s' & Hm & _). now apply (Matches_items_Eol inp items inp s' Haf) in Hm as [_ L].
  - intros L. exists []. split; [|reflexivity].
    now apply (Matches_items_Eol inp items inp [] Haf).
Qed.

(** *** The words of the building blocks *)

Lemma Lang_star_class p w : Lang (Star (Class p)) w <-> forallb p w = true.
Proof.
  simpl. split.
  - intros (ws & -> & Hws). induction Hws as [|x ws (c & -> & Hc) _ IH]; [reflexivity|].
    simpl. now rewrite Hc, IH.
  - intros Hw. exists (map (fun c => [c]) w). split.
    + induction w as [|c w IH]; [reflexivity|]. simpl in Hw |- *.
      apply andb_true_iff in Hw as [_ Hw]. now rewrite <- (IH Hw).
    + induction w as [|c w IH]; simpl; [constructor|].
      simpl in Hw. apply andb_true_iff in Hw as [Hc Hw].
      constructor; [now exists c|now apply IH].
Qed.

Lemma Lang_plus_class p w :
  Lang (Plus (Class p)) w <-> w <> [] /\ forallb p w = true.
Proof.
  change (Lang (Plus (Class p)) w)
    with (exists w1 w2, w = w1 ++ w2 /\ Lang (Class p) w1 /\ Lang (Star (Class p)) w2).
  split.
  - intros (w1 & w2 & -> & (c & -> & Hc) & L2). apply Lang_star_class in L2.
    split; [discriminate|]. simpl. now rewrite Hc, L2.
  - intros [Hne Hw]. destruct w as [|c w]; [contradiction|].
    simpl in Hw. apply andb_true_iff in Hw as [Hc Hw].
    exists [c], w. split; [reflexivity|]. split; [now exists c|].
    now apply Lang_star_class.
Qed.

Lemma Lang_atleast_class n p w :
  Lang (AtLeast n (Class p)) w <-> (n <= length w)%nat /\ forallb p w = true.
Proof.
  revert w. induction n as [|n IH]; intros w.
  - cbn [AtLeast]. rewrite Lang_star_class. split; [intros H; split; [lia|exact H]|tauto].
  - change (Lang (AtLeast (S n) (Class p)) w)
      with (exists w1 w2, w = w1 ++ w2 /\ Lang (Class p) w1
                          /\ Lang (AtLeast n (Class p)) w2).
    split.
    + intros (w1 & w2 & -> & (c & -> & Hc) & L2). apply IH in L2 as [Hl Hw].
      simpl. rewrite Hc, Hw. split; [lia|reflexivity].
    + intros [Hl Hw]. destruct w as [|c w]; [simpl in Hl; lia|].
      simpl in Hl, Hw. apply andb_true_iff in Hw as [Hc Hw].
      exists [c], w. split; [reflexivity|]. split; [now exists c|].
      apply IH. split; [lia|exact Hw].
Qed.

Lemma Lang_chr a w : Lang (Chr a) w <-> w = [ch a].
Proof.
  unfold Chr. simpl. split.
  - intros (c & -> & Hc). apply N.eqb_eq in Hc. now rewrite Hc.
  - intros ->. exists (ch a). split; [reflexivity|apply N.eqb_refl].
Qed.

Lemma Lang_opt r w : Lang (Opt r) w <-> Lang r w \/ w = [].
Proof. reflexivity. Qed.

Lemma Lang_seq_cons r rs w :
  Lang (seq (r :: rs)) w
  <-> exists w1 w2, w = w1 ++ w2 /\ Lang r w1 /\ Lang (seq rs) w2.
Proof. reflexivity. Qed.

Lemma Lang_seq_nil w : Lang (seq []) w <-> w = [].
Proof. reflexivity. Qed.

Lemma Lang_plus r w :
  Lang (Plus r) w <-> exists x xs, w = concat (x :: xs) /\ Forall (Lang r) (x :: xs).
Proof.
  change (Lang (Plus r) w)
    with (exists w1 w2, w = w1 ++ w2 /\ Lang r w1
                        /\ exists ws, w2 = concat ws /\ Forall (Lang r) ws).
  split.
  - intros (w1 & w2 & -> & L1 & ws & -> & Lws). exists w1, ws. split; [reflexivity|].
    now constructor.
  - intros (x & xs & -> & Hall). inversion Hall; subst.
    exists x, (concat xs). split; [reflexivity|]. split; [assumption|]. now exists xs.
Qed.

(** ** The e-mail pattern *)

Lemma emailRegex_shape v : test emailRegex v = true <-> email_shape v.
Proof.
  change emailRegex
    with (seq (Bol :: [Plus (Class not_space_at); Chr "@"; Plus (Class not_space_at);
                       Chr "."; AtLeast 2 (Class not_space_at)] ++ [Eol])).
  rewrite test_whole by reflexivity. unfold email_shape.
  rewrite Lang_seq_cons. split.
  - intros (loc & r1 & -> & Lloc & L1). apply Lang_plus_class in Lloc as [Hloc Floc].
    apply Lang_seq_cons in L1 as (a & r2 & -> & La & L2). apply Lang_chr in La as ->.
    apply Lang_seq_cons in L2 as (dom & r3 & -> & Ldom & L3).
    apply Lang_plus_class in Ldom as [Hdom Fdom].
    apply Lang_seq_cons in L3 as (d & r4 & -> & Ld & L4). apply Lang_chr in Ld as ->.
    apply Lang_seq_cons in L4 as (tail & r5 & -> & Ltail & L5).
    apply Lang_atleast_class in Ltail as [Htail Ftail]. apply Lang_seq_nil in L5 as ->.
    exists loc, dom, tail. rewrite app_nil_r. split; [reflexivity|].
    repeat split; try assumption. now rewrite !forallb_app, Floc, Fdom, Ftail.
  - intros (loc & dom & tail & -> & Hloc & Hdom & Htail & Hall).
    rewrite !forallb_app, !andb_true_iff in Hall. destruct Hall as (Floc & Fdom & Ftail).
    exists loc, ([ch "@"] ++ dom ++ [ch "."] ++ tail). split; [reflexivity|].
    split; [now apply Lang_plus_class|].
    apply Lang_seq_cons. exists [ch "@"], (dom ++ [ch "."] ++ tail).
    split; [reflexivity|]. split; [now apply Lang_chr|].
    apply Lang_seq_cons. exists dom, ([ch "."] ++ tail).
    split; [reflexivity|]. split; [now apply Lang_plus_class|].
    apply Lang_seq_cons. exists [ch "."], tail.
    split; [reflexivity|]. split; [now apply Lang_chr|].
    apply Lang_seq_cons. exists tail, []. rewrite app_nil_r.
    split; [reflexivity|]. split; [now apply Lang_atleast_class|reflexivity].
Qed.

(** C1, as the code has it.  [validateEmail] accepts exactly when the
    trimmed text is [local@domain.rest] with no white space and no other
    [@], a non-empty local part, a non-empty domain before some dot, and at
    least 2 characters after that dot; these characters may contain
    further dots, so the part after the last dot may be shorter than 2.
    On failure the message is ["Please enter a valid email address."]. *)
Theorem email_validation (p : Page) (s : JSString) :
  fields_present p = true ->
  exists b p',
    validateEmail (the_refs p) (type_into FEmail s p) = Some (b, p')
    /\ (b = true <-> email_shape (trim s))
    /\ (b = false ->
        error_text FEmail p' = Some (u "Please enter a valid email address.")).
Proof.
  intros H. destruct (validator_typed FEmail s p H) as [Hrun Htext].
  pose proof (value_type_into FEmail s p H) as Hv.
  cbn [validator passes field_ref] in Hrun, Htext, Hv. rewrite Hv in Hrun, Htext.
  eexists _, _. split; [exact Hrun|]. split; [apply emailRegex_shape|].
  intros Hb. rewrite Htext, Hb. reflexivity.
Qed.

Lemma email_validation_blank :
  fields_present blank_page = true
  /\ exists b p',
       validateEmail (the_refs blank_page) (type_into FEmail (u "a@b.co") blank_page)
       = Some (b, p')
       /\ (b = true <-> email_shape (trim (u "a@b.co")))
       /\ (b = false ->
           error_text FEmail p' = Some (u "Please enter a valid email address.")).
Proof.
  split; [vm_compute; reflexivity|].
  apply (email_validation blank_page (u "a@b.co")). vm_compute; reflexivity.
Defined.

(** C1 as stated fails: ["a@b.c.d"] is accepted, yet the part after its
    last dot is the single character ["d"]. *)
Lemma email_final_label_may_be_short :
  result (validateEmail (the_refs blank_page))
         (type_into FEmail (u "a@b.c.d") blank_page) = Some true
  /\ final_label (trim (u "a@b.c.d")) = u "d"
  /\ spec_email_shape (trim (u "a@b.c.d")) = false
  /\ ~ (forall p s b p',
          fields_present p = true ->
          validateEmail (the_refs p) (type_into FEmail s p) = Some (b, p') ->
          (b = true <-> spec_email_shape (trim s) = true)).
Proof.
  split; [vm_compute; reflexivity|]. split; [vm_compute; reflexivity|].
  split; [vm_compute; reflexivity|].
  intros Hclaim.
  destruct (validateEmail (the_refs blank_page) (type_into FEmail (u "a@b.c.d") blank_page))
    as [[b p']|] eqn:E; [|vm_compute in E; discriminate E].
  assert (Hp : fields_present blank_page = true) by (vm_compute; reflexivity).
  pose proof (Hclaim blank_page (u "a@b.c.d") b p' Hp E) as [Hshape _].
  vm_compute in E. injection E as <- _.
  specialize (Hshape eq_refl). vm_compute in Hshape. discriminate Hshape.
Qed.

(** ** The URL pattern *)

Lemma Lang_label x :
  Lang (seq [Plus (Class word_hyphen); Chr "."]) x
  <-> exists l, x = l ++ [ch "."] /\ l <> [] /\ forallb word_hyphen l = true.
Proof.
  rewrite Lang_seq_cons. split.
  - intros (l & r & -> & Ll & Lr). apply Lang_plus_class in Ll as [Hl Fl].
    apply Lang_seq_cons in Lr as (d & r' & -> & Ld & Lr'). apply Lang_chr in Ld as ->.
    apply Lang_seq_nil in Lr' as ->. exists l. rewrite app_nil_r. now repeat split.
  - intros (l & -> & Hl & Fl). exists l, [ch "."]. split; [reflexivity|].
    split; [now apply Lang_plus_class|].
    apply Lang_seq_cons. exists [ch "."], []. split; [reflexivity|].
    split; [now apply Lang_chr|reflexivity].
Qed.

Lemma Lang_labels xs :
  Forall (Lang (seq [Plus (Class word_hyphen); Chr "."])) xs
  <-> exists labels, xs = map (fun l => l ++ [ch "."]) labels
                     /\ Forall (fun l => l <> [] /\ forallb word_hyphen l = true) labels.
Proof.
  split.
  - intros Hxs. induction Hxs as [|x xs Hx _ (labels & -> & Hl)].
    + exists []. split; [reflexivity|constructor].
    + apply Lang_label in Hx as (l & -> & Hne & Fl).
      exists (l :: labels). split; [reflexivity|]. now constructor.
  - intros (labels & -> & Hl). induction Hl as [|l labels [Hne Fl] _ IH]; simpl.
    + constructor.
    + constructor; [|exact IH]. apply Lang_label. now exists l.
Qed.

Lemma Lang_scheme w :
  Lang (Opt (seq [Chr "h"; Chr "t"; Chr "t"; Chr "p"; Opt (Chr "s");
                  Chr ":"; Chr "/"; Chr "/"])) w
  <-> w = [] \/ w = u "http://" \/ w = u "https://".
Proof.
  rewrite Lang_opt. split.
  - intros [L| ->]; [|now left]. right.
    repeat match goal with
           | H : Lang (seq (_ :: _)) _ |- _ =>
               apply Lang_seq_cons in H as (? & ? & -> & ? & ?)
           | H : Lang (Chr _) _ |- _ => apply Lang_chr in H as ->
           | H : Lang (seq []) _ |- _ => apply Lang_seq_nil in H as ->
           end.
    match goal with
    | H : Lang (Opt (Chr _)) _ |- _ => apply Lang_opt in H; destruct H as [Hs| ->]
    end.
    + apply Lang_chr in Hs as ->. now right.
    + now left.
  - intros [->|[->| ->]]; [now right| |]; left.
    + apply Lang_seq_cons. exists [ch "h"], (u "ttp://").
      split; [reflexivity|]. split; [now apply Lang_chr|].
      apply Lang_seq_cons. exists [ch "t"], (u "tp://").
      split; [reflexivity|]. split; [now apply Lang_chr|].
      apply Lang_seq_cons. exists [ch "t"], (u "p://").
      split; [reflexivity|]. split; [now apply Lang_chr|].
      apply Lang_seq_cons. exists [ch "p"], (u "://").
      split; [reflexivity|]. split; [now apply Lang_chr|].
      apply Lang_seq_cons. exists [], (u "://").
      split; [reflexivity|]. split; [now right|].
      apply Lang_seq_cons. exists [ch ":"], (u "//").
      split; [reflexivity|]. split; [now apply Lang_chr|].
      apply Lang_seq_cons. exists [ch "/"], (u "/").
      split; [reflexivity|]. split; [now apply Lang_chr|].
      apply Lang_seq_cons. exists [ch "/"], [].
      split; [reflexivity|]. split; [now apply Lang_chr|reflexivity].
    + apply Lang_seq_cons. exists [ch "h"], (u "ttps://").
      split; [reflexivity|]. split; [now apply Lang_chr|].
      apply Lang_seq_cons. exists [ch "t"], (u "tps://").
      split; [reflexivity|]. split; [now apply Lang_chr|].
      apply Lang_seq_cons. exists [ch "t"], (u "ps://").
      split; [reflexivity|]. split; [now apply Lang_chr|].
      apply Lang_seq_cons. exists [ch "p"], (u "s://").
      split; [reflexivity|]. split; [now apply Lang_chr|].
      apply Lang_seq_cons. exists [ch "s"], (u "://").
      split; [reflexivity|]. split; [left; now apply Lang_chr|].
      apply Lang_seq_cons. exists [ch ":"], (u "//").
      split; [reflexivity|]. split; [now apply Lang_chr|].
      apply Lang_seq_cons. exists [ch "/"], (u "/").
      split; [reflexivity|]. split; [now apply Lang_chr|].
      apply Lang_seq_cons. exists [ch "/"], [].
      split; [reflexivity|]. split; [now apply Lang_chr|reflexivity].
Qed.

Lemma Lang_path w :
  Lang (Opt (seq [Chr "/"; Star (Class (cnot is_white_space))])) w
  <-> w = [] \/ exists rest, w = ch "/" :: rest
                             /\ forallb (cnot is_white_space) rest = true.
Proof.
  rewrite Lang_opt. split.
  - intros [L| ->]; [|now left]. right.
    apply Lang_seq_cons in L as (a & r & -> & La & Lr). apply Lang_chr in La as ->.
    apply Lang_seq_cons in Lr as (rest & r' & -> & Lrest & Lr').
    apply Lang_seq_nil in Lr' as ->. apply Lang_star_class in Lrest.
    exists rest. now rewrite app_nil_r.
  - intros [->|(rest & -> & Hrest)]; [now right|]. left.
    apply Lang_seq_cons. exists [ch "/"], rest. split; [reflexivity|].
    split; [now apply Lang_chr|].
    apply Lang_seq_cons. exists rest, []. rewrite app_nil_r. split; [reflexivity|].
    split; [now apply Lang_star_class|reflexivity].
Qed.

Lemma urlRegex_shape v : test urlRegex v = true <-> spec_loose_url v.
Proof.
  change urlRegex
    with (seq (Bol ::
               [Opt (seq [Chr "h"; Chr "t"; Chr "t"; Chr "p"; Opt (Chr "s");
                          Chr ":"; Chr "/"; Chr "/"]);
                Plus (seq [Plus (Class word_hyphen); Chr "."]);
                AtLeast 2 (Class word_hyphen);
                Opt (seq [Chr "/"; Star (Class (cnot is_white_space))])] ++ [Eol])).
  rewrite test_whole by reflexivity. unfold spec_loose_url.
  rewrite Lang_seq_cons. split.
  - intros (scheme & r1 & -> & Ls & L1). apply Lang_scheme in Ls.
    apply Lang_seq_cons in L1 as (labs & r2 & -> & Ll & L2).
    apply Lang_plus in Ll as (x & xs & -> & Hall).
    apply Lang_labels in Hall as (labels & Hmap & Hlabels).
    apply Lang_seq_cons in L2 as (tld & r3 & -> & Lt & L3).
    apply Lang_atleast_class in Lt as [Ht Ft].
    apply Lang_seq_cons in L3 as (path & r4 & -> & Lp & L4).
    apply Lang_path in Lp. apply Lang_seq_nil in L4 as ->.
    exists scheme, labels, tld, path. rewrite app_nil_r, Hmap.
    split; [reflexivity|]. split; [exact Ls|]. split.
    { intros ->. discriminate Hmap. }
    now repeat split.
  - intros (scheme & labels & tld & path & -> & Hs & Hne & Hlabels & Ht & Ft & Hp).
    exists scheme, (concat (map (fun l => l ++ [ch "."]) labels) ++ tld ++ path).
    split; [reflexivity|]. split; [now apply Lang_scheme|].
    apply Lang_seq_cons. exists (concat (map (fun l => l ++ [ch "."]) labels)), (tld ++ path).
    split; [reflexivity|]. split.
    { apply Lang_plus. destruct labels as [|l labels]; [contradiction|].
      exists (l ++ [ch "."]), (map (fun l => l ++ [ch "."]) labels).
      split; [reflexivity|].
      change ((l ++ [ch "."]) :: map (fun l0 => l0 ++ [ch "."]) labels)
        with (map (fun l0 => l0 ++ [ch "."]) (l :: labels)).
      apply Lang_labels. now exists (l :: labels). }
    apply Lang_seq_cons. exists tld, path. split; [reflexivity|].
    split; [now apply Lang_atleast_class|].
    apply Lang_seq_cons. exists path, []. rewrite app_nil_r. split; [reflexivity|].
    split; [now apply Lang_path|reflexivity].
Qed.

(** C8. [validateWebsite] accepts the empty trimmed text, and a
    non-empty one exactly when it has the loose URL shape: an optional
    [http://] or [https://], one or more labels each followed by a dot, a
    final label of at least 2 characters, an optional path.  The empty
    text, ["example.com"] and ["https://example.co/path"] are accepted and
    ["not a url"] is rejected. *)
Theorem website_validation (p : Page) (s : JSString) :
  fields_present p = true ->
  exists b p',
    validateWebsite (the_refs p) (type_into FWebsite s p) = Some (b, p')
    /\ (b = true <-> trim s = [] \/ spec_loose_url (trim s))
    /\ (In s [[]; u "example.com"; u "https://example.co/path"] -> b = true)
    /\ (s = u "not a url" -> b = false).
Proof.
  intros H. destruct (validator_typed FWebsite s p H) as [Hrun _].
  pose proof (value_type_into FWebsite s p H) as Hv.
  cbn [validator passes field_ref] in Hrun, Hv. rewrite Hv in Hrun.
  eexists _, _. split; [exact Hrun|]. split; [|split].
  - rewrite orb_true_iff, str_eqb_eq. now rewrite urlRegex_shape.
  - intros [<-|[<-|[<-|[]]]]; vm_compute; reflexivity.
  - intros ->. vm_compute; reflexivity.
Qed.

Lemma website_validation_blank :
  fields_present blank_page = true
  /\ exists b p',
       validateWebsite (the_refs blank_page)
                       (type_into FWebsite (u "example.com") blank_page) = Some (b, p')
       /\ (b = true <-> trim (u "example.com") = []
                        \/ spec_loose_url (trim (u "example.com")))
       /\ (In (u "example.com") [[]; u "example.com"; u "https://example.co/path"] ->
           b = true)
       /\ (u "example.com" = u "not a url" -> b = false).
Proof.
  split; [vm_compute; reflexivity|].
  apply (website_validation blank_page (u "example.com")). vm_compute; reflexivity.
Defined.

(** *** The specification's e-mail shape is accepted *)

Lemma span_spec p s a b :
  span p s = (a, b) ->
  s = a ++ b /\ forallb p a = true
  /\ match b with
     | [] => True
     | c :: _ => p c = false
     end.
Proof.
  revert a b. induction s as [|c s IH]; intros a b; simpl.
  - intros [= <- <-]. now repeat split.
  - destruct (p c) eqn:Pc.
    + destruct (span p s) as [a' b']. intros [= <- <-].
      destruct (IH a' b' eq_refl) as (-> & Fa & Hb).
      split; [reflexivity|]. split; [simpl; now rewrite Pc|exact Hb].
    + intros [= <- <-]. now repeat split.
Qed.

Lemma not_existsb_In (p : N -> bool) l c :
  existsb p l = false -> In c l -> p c = false.
Proof.
  intros He Hin. destruct (p c) eqn:Pc; [|reflexivity].
  assert (Ht : existsb p l = true) by (apply existsb_exists; now exists c).
  congruence.
Qed.

(** Every text of the shape the specification words is accepted; the
    converse fails only through the bound on the final label. *)
Lemma spec_email_shape_accepted v : spec_email_shape v = true -> email_shape v.
Proof.
  unfold spec_email_shape.
  destruct (span (fun c => negb (N.eqb c (ch "@"))) v) as [loc rest] eqn:Es.
  destruct (span_spec _ _ Es) as (-> & Floc & Hrest).
  destruct rest as [|a dom]; [discriminate|].
  apply negb_false_iff, N.eqb_eq in Hrest. subst a.
  rewrite !andb_true_iff, !negb_true_iff, Nat.ltb_lt, Nat.leb_le, Nat.ltb_lt.
  intros (((((Hws & Hat) & Hloc) & Hdot) & Hlabel) & Hdom).
  unfold final_label in Hlabel, Hdom.
  destruct (span (fun c => negb (N.eqb c (ch "."))) (rev dom)) as [t r] eqn:Et.
  destruct (span_spec _ _ Et) as (Hrev & Ft & Hr). simpl fst in Hlabel, Hdom.
  assert (Hd : dom = rev r ++ rev t).
  { rewrite <- (rev_involutive dom), Hrev. apply rev_app_distr. }
  destruct r as [|d r'].
  { exfalso. rewrite app_nil_r in Hrev. apply existsb_exists in Hdot as (c & Hin & Hc).
    unfold cis in Hc. apply N.eqb_eq in Hc. subst c.
    rewrite forallb_forall in Ft. specialize (Ft (ch ".")).
    rewrite <- Hrev, <- in_rev in Ft. specialize (Ft Hin). discriminate Ft. }
  apply negb_false_iff, N.eqb_eq in Hr. subst d.
  cbn [rev] in Hd. rewrite <- app_assoc in Hd.
  exists loc, (rev r'), (rev t). split; [now rewrite Hd|].
  split; [intros ->; simpl in Hloc; lia|].
  split.
  { intros Hr'. rewrite Hd, Hr' in Hdom. rewrite !length_app in Hdom. simpl in Hdom. lia. }
  split; [exact Hlabel|].
  apply forallb_forall. intros c Hin.
  assert (Hv : In c (loc ++ ch "@" :: dom) -> is_white_space c = false)
    by apply (not_existsb_In _ _ c Hws).
  unfold not_space_at, cnot, cor. apply negb_true_iff, orb_false_iff.
  apply in_app_or in Hin as [Hin|Hin].
  - split; [apply Hv, in_or_app; now left|].
    rewrite forallb_forall in Floc. specialize (Floc c Hin).
    apply negb_true_iff in Floc. unfold cis. now rewrite N.eqb_sym.
  - assert (Hcd : In c dom).
    { rewrite Hd. apply in_app_or in Hin as [Hin|Hin]; apply in_or_app;
        [now left|right; apply in_or_app; now right]. }
    split; [apply Hv, in_or_app; right; now right|].
    exact (not_existsb_In _ _ c Hat Hcd).
Qed.

(** * Beyond the validators: the listeners and the other widgets *)

(** ** Pages with the same ids *)

Lemma ids_lookup_id p q i :
  map id (elements p) = map id (elements q) -> lookup_id i p = lookup_id i q.
Proof. intros H. now apply find_id_ids. Qed.

Lemma ids_refs p q :
  map id (elements p) = map id (elements q) -> the_refs p = the_refs q.
Proof. intros H. unfold the_refs. now rewrite !(ids_lookup_id p q _ H). Qed.


(** ** Editing a control *)

Lemma type_into_edit f v p : type_into f v p = edit f (with_value v) p.
Proof. reflexivity. Qed.

Lemma ids_edit f g p :
  (forall e, id (g e) = id e) -> map id (elements (edit f g p)) = map id (elements p).
Proof.
  intros Hg. unfold edit. destruct (lookup_id (field_id f) p) as [i|]; [|reflexivity].
  simpl. now apply ids_alter.
Qed.

Lemma active_edit f g p : activeElement (edit f g p) = activeElement p.
Proof. unfold edit. now destruct (lookup_id (field_id f) p). Qed.

(** An edit leaves every element but the edited control as it was. *)
Lemma lookup_edit_other f g p k :
  lookup_id (field_id f) p <> Some k -> elements (edit f g p) !! k = elements p !! k.
Proof.
  intros Hk. unfold edit. destruct (lookup_id (field_id f) p) as [i|]; [|reflexivity].
  simpl. apply list_lookup_alter_ne. congruence.
Qed.

Lemma error_text_edit f g h p :
  (forall e, id (g e) = id e) -> error_text h (edit f g p) = error_text h p.
Proof.
  intros Hg. unfold error_text. rewrite (ids_lookup_id _ p _ (ids_edit f g p Hg)).
  destruct (lookup_id (label_id h) p) as [j|] eqn:Hj; [|reflexivity].
  cbn [elem]. rewrite lookup_edit_other; [reflexivity|].
  intros Hi. apply (field_id_not_label f h). exact (lookup_id_inj _ _ _ Hi Hj).
Qed.

Lemma marked_edit f g h p :
  (forall e, id (g e) = id e) -> (forall e, classList (g e) = classList e) ->
  marked h (edit f g p) = marked h p.
Proof.
  intros Hg Hc. unfold marked. rewrite (ids_lookup_id _ p _ (ids_edit f g p Hg)).
  destruct (lookup_id (field_id h) p) as [k|] eqn:Hk; [|reflexivity].
  cbn [elem]. unfold edit.
  destruct (lookup_id (field_id f) p) as [i|]; [|reflexivity]. cbn [elements].
  destruct (decide (i = k)) as [->|Hne].
  - rewrite list_lookup_alter_eq. destruct (elements p !! k) as [e|]; [|reflexivity].
    cbn. unfold has_class. now rewrite Hc.
  - now rewrite list_lookup_alter_ne.
Qed.

Lemma elem_edit_other f h g p :
  f <> h ->
  elem (lookup_id (field_id h) p) (edit f g p) = elem (lookup_id (field_id h) p) p.
Proof.
  intros Hfh. destruct (lookup_id (field_id h) p) as [k|] eqn:Hk; [|reflexivity].
  cbn [elem]. apply lookup_edit_other. intros Hi.
  apply Hfh, field_id_inj. exact (lookup_id_inj _ _ _ Hi Hk).
Qed.

(** Editing one field does not change what the validator of another
    field tests, but for the confirm field when the password is edited. *)
Lemma passes_edit_other f h g p :
  f <> h -> ~ (f = FPassword /\ h = FConfirm) ->
  passes h (the_refs p) (edit f g p) = passes h (the_refs p) p.
Proof.
  intros Hfh Hpc.
  assert (Hv : forall x, f <> x ->
             value_of (field_ref x (the_refs p)) (edit f g p)
             = value_of (field_ref x (the_refs p)) p).
  { intros x Hx. rewrite field_ref_the_refs. unfold value_of.
    now rewrite elem_edit_other. }
  assert (Hc : forall x, f <> x ->
             checked_of (field_ref x (the_refs p)) (edit f g p)
             = checked_of (field_ref x (the_refs p)) p).
  { intros x Hx. rewrite field_ref_the_refs. unfold checked_of.
    now rewrite elem_edit_other. }
  assert (Hpw : h = FConfirm -> f <> FPassword).
  { intros -> ->. now apply Hpc. }
  destruct h; cbn [passes];
    [ pose proof (Hv FName Hfh) as E | pose proof (Hv FEmail Hfh) as E
    | pose proof (Hv FPassword Hfh) as E
    | pose proof (Hv FConfirm Hfh) as E;
      pose proof (Hv FPassword (Hpw eq_refl)) as E'; cbn [field_ref] in E'; rewrite E'
    | pose proof (Hv FAge Hfh) as E | pose proof (Hv FWebsite Hfh) as E
    | pose proof (Hc FTerms Hfh) as E ];
    cbn [field_ref] in E; now rewrite E.
Qed.

Lemma checked_edit f g r p :
  (forall e, checked (g e) = checked e) -> checked_of r (edit f g p) = checked_of r p.
Proof.
  intros Hg. unfold checked_of, elem, edit. destruct r as [k|]; [|reflexivity].
  destruct (lookup_id (field_id f) p) as [i|]; [|reflexivity]. cbn [elements].
  destruct (decide (i = k)) as [->|Hne].
  - rewrite list_lookup_alter_eq. destruct (elements p !! k); cbn; [apply Hg|reflexivity].
  - now rewrite list_lookup_alter_ne.
Qed.

Lemma value_edit f g r p :
  (forall e, value (g e) = value e) -> value_of r (edit f g p) = value_of r p.
Proof.
  intros Hg. unfold value_of, elem, edit. destruct r as [k|]; [|reflexivity].
  destruct (lookup_id (field_id f) p) as [i|]; [|reflexivity]. cbn [elements].
  destruct (decide (i = k)) as [->|Hne].
  - rewrite list_lookup_alter_eq. destruct (elements p !! k); cbn; [apply Hg|reflexivity].
  - now rewrite list_lookup_alter_ne.
Qed.

(** ** Writing the text of one element *)

Lemma error_text_set_text k t h p :
  lookup_id (label_id h) p <> Some k ->
  error_text h (set_text_at k t p) = error_text h p.
Proof.
  intros Hk. unfold error_text.
  rewrite (same_inputs_lookup_id _ (same_inputs_set_text k t p)).
  destruct (lookup_id (label_id h) p) as [j|]; [|reflexivity].
  cbn [elem set_text_at elements]. rewrite list_lookup_alter_ne; [reflexivity|congruence].
Qed.

Lemma marked_set_text k t h p : marked h (set_text_at k t p) = marked h p.
Proof.
  unfold marked. rewrite (same_inputs_lookup_id _ (same_inputs_set_text k t p)).
  destruct (lookup_id (field_id h) p) as [i|]; [|reflexivity].
  cbn [elem set_text_at elements].
  destruct (decide (k = i)) as [->|Hne].
  - rewrite list_lookup_alter_eq. now destruct (elements p !! i).
  - now rewrite list_lookup_alter_ne.
Qed.

Lemma same_inputs_stamp_year year q : same_inputs (stamp_year year q) q.
Proof.
  unfold stamp_year. destruct (lookup_id (u "year") q); [|reflexivity].
  apply same_inputs_set_text.
Qed.

Lemma year_not_label h p y :
  lookup_id (u "year") p = Some y -> lookup_id (label_id h) p <> Some y.
Proof.
  intros Hy Hh. pose proof (lookup_id_inj _ _ _ Hy Hh) as Hbad.
  destruct h; vm_compute in Hbad; discriminate Hbad.
Qed.

Lemma error_text_stamp_year year h q :
  error_text h (stamp_year year q) = error_text h q.
Proof.
  unfold stamp_year. destruct (lookup_id (u "year") q) as [y|] eqn:Hy; [|reflexivity].
  apply error_text_set_text. now apply year_not_label.
Qed.

Lemma marked_stamp_year year h q : marked h (stamp_year year q) = marked h q.
Proof.
  unfold stamp_year. destruct (lookup_id (u "year") q); [|reflexivity].
  apply marked_set_text.
Qed.

Lemma same_inputs_on_failure q : same_inputs (on_failure q) q.
Proof. unfold same_inputs. now rewrite elements_on_failure. Qed.

Lemma error_text_on_failure h q : error_text h (on_failure q) = error_text h q.
Proof. unfold error_text, lookup_id, elem. now rewrite !elements_on_failure. Qed.

Lemma marked_on_failure h q : marked h (on_failure q) = marked h q.
Proof. unfold marked, lookup_id, elem. now rewrite !elements_on_failure. Qed.

(** *** What decides whether [form.reset] is the method *)









(** ** One event and its listener *)

Lemma field_eq_dec (f g : Field) : {f = g} + {f <> g}.
Proof. decide equality. Qed.

Lemma ids_effect f b p : map id (elements (effect f b p)) = map id (elements p).
Proof. apply inputs_ids, same_inputs_effect. Qed.

Lemma step_input f v p :
  fields_present p = true -> f <> FTerms ->
  step (the_refs p) (Input f v) p
  = Some (effect f (passes f (the_refs p) (type_into f v p)) (type_into f v p)).
Proof.
  intros H Hf. destruct (validator_typed f v p H) as [Hrun _]. cbv zeta in Hrun.
  destruct f; try contradiction; cbn [step]; now rewrite Hrun.
Qed.

Lemma step_change c p :
  fields_present p = true ->
  step (the_refs p) (Change c) p
  = Some (effect FTerms (passes FTerms (the_refs p) (tick c p)) (tick c p)).
Proof.
  intros H. cbn [step].
  assert (Hids : map id (elements (tick c p)) = map id (elements p))
    by (apply ids_edit; reflexivity).
  assert (H1 : fields_present (tick c p) = true).
  { rewrite <- H. unfold fields_present, present. simpl.
    now rewrite !(ids_lookup_id _ p _ Hids). }
  pose proof (validator_run FTerms (tick c p) H1) as Hrun.
  rewrite (ids_refs _ p Hids) in Hrun. cbn [validator] in Hrun. now rewrite Hrun.
Qed.

Lemma step_submit year p :
  ready p = true ->
  exists s fm,
    lookup_id (u "form-success") p = Some s
    /\ lookup_id (u "signup-form") p = Some fm
    /\ step (the_refs p) (Submit year) p
       = if forallb (fun f => passes f (the_refs p) p) all_fields
         then if reset_callable p
              then Some (stamp_year year
                           (on_success s fm
                              (refreshed all_fields (the_refs p) p (set_text_at s [] p))))
              else None
         else Some (stamp_year year
                      (on_failure
                         (refreshed all_fields (the_refs p) p (set_text_at s [] p)))).
Proof.
  intros Hr. destruct (onSubmit_run p year (mkEvent false) Hr) as (s & fm & Hs & Hf & Hrun).
  exists s, fm. split; [exact Hs|]. split; [exact Hf|].
  cbv zeta in Hrun. cbn [step]. rewrite Hrun.
  destruct (forallb _ all_fields); [now destruct (reset_callable p)|reflexivity].
Qed.

Lemma validateAll_result p :
  fields_present p = true ->
  result (validateAll (the_refs p)) p
  = Some (forallb (fun f => passes f (the_refs p) p) all_fields).
Proof. intros H. unfold result. now rewrite validateAll_run. Qed.



(** ** Displays that follow the values, and one that does not *)

Lemma in_sync_effect f R p :
  fields_present p = true ->
  in_sync f R (effect f (passes f R p) p).
Proof.
  intros H. unfold in_sync.
  rewrite (same_inputs_passes f R (same_inputs_effect f _ p)).
  split; [now apply error_text_effect|]. intros Hf. now apply marked_effect.
Qed.

Lemma in_sync_effect_other f g b R p :
  f <> g -> in_sync g R p -> in_sync g R (effect f b p).
Proof.
  intros Hfg [Ht Hm]. unfold in_sync.
  rewrite (same_inputs_passes g R (same_inputs_effect f b p)).
  rewrite error_text_effect_other by exact Hfg. split; [exact Ht|].
  intros Hg. rewrite marked_effect_other by now left. now apply Hm.
Qed.

(** X2. A field whose display agrees with its value keeps that agreement
    through every event but a successful submit, as long as it is not the
    confirm field: an input validates the field it is typed into and
    leaves the others alone, and a failed submit refreshes them all. *)
Theorem display_stays_in_sync (p p' : Page) (ev : UserEvent) (g : Field) :
  ready p = true ->
  g <> FConfirm ->
  in_sync g (the_refs p) p ->
  (forall year, ev = Submit year -> result (validateAll (the_refs p)) p = Some false) ->
  step (the_refs p) ev p = Some p' ->
  in_sync g (the_refs p) p'.
Proof.
  intros Hr Hg Hsync Hfail Hstep. destruct (ready_parts p Hr) as (H & _).
  assert (Hedit : forall f e,
            (forall x, id (e x) = id x) -> (forall x, classList (e x) = classList x) ->
            passes g (the_refs p) (edit f e p) = passes g (the_refs p) p ->
            in_sync g (the_refs p) (edit f e p)).
  { intros f e Hid Hcl Hp. destruct Hsync as [Ht Hm]. unfold in_sync.
    rewrite Hp, error_text_edit by exact Hid. split; [exact Ht|].
    intros Hgt. rewrite marked_edit by assumption. now apply Hm. }
  assert (Hpres : forall f e, (forall x, id (e x) = id x) ->
            fields_present (edit f e p) = true /\ the_refs (edit f e p) = the_refs p).
  { intros f e Hid. pose proof (ids_edit f e p Hid) as Hids. split.
    - rewrite <- H. unfold fields_present, present. simpl.
      now rewrite !(ids_lookup_id _ p _ Hids).
    - now apply ids_refs. }
  destruct ev as [f v|c|year].
  - destruct (field_eq_dec f FTerms) as [->|Hf].
    + cbn [step] in Hstep. injection Hstep as <-. rewrite type_into_edit.
      apply Hedit; try reflexivity.
      destruct (field_eq_dec g FTerms) as [->|Hgt].
      * cbn [passes]. now apply checked_edit.
      * apply passes_edit_other; [congruence|]. intros [Hx _]. discriminate Hx.
    + rewrite step_input in Hstep by assumption. injection Hstep as <-.
      rewrite type_into_edit.
      destruct (Hpres f (with_value v) ltac:(reflexivity)) as [H1 _].
      destruct (field_eq_dec f g) as [->|Hfg].
      * exact (in_sync_effect g (the_refs p) _ H1).
      * apply in_sync_effect_other; [exact Hfg|].
        apply Hedit; try reflexivity.
        apply passes_edit_other; [exact Hfg|]. intros [_ Hx]. contradiction.
  - rewrite step_change in Hstep by assumption. injection Hstep as <-. unfold tick.
    destruct (Hpres FTerms (with_checked c) ltac:(reflexivity)) as [H1 _].
    destruct (field_eq_dec FTerms g) as [<-|Hfg].
    + exact (in_sync_effect FTerms (the_refs p) _ H1).
    + apply in_sync_effect_other; [exact Hfg|].
      apply Hedit; try reflexivity.
      apply passes_edit_other; [exact Hfg|]. intros [Hx _]. discriminate Hx.
  - destruct (step_submit year p Hr) as (s & fm & Hs & _ & Hrun).
    rewrite Hrun in Hstep. clear Hrun.
    specialize (Hfail year eq_refl). rewrite validateAll_result in Hfail by exact H.
    assert (Hb : forallb (fun f => passes f (the_refs p) p) all_fields = false)
      by congruence.
    rewrite Hb in Hstep. clear Hb Hfail.
    assert (H0 : fields_present (set_text_at s [] p) = true)
      by now rewrite (same_inputs_present (same_inputs_set_text s [] p)).
    assert (Hq : same_inputs (refreshed all_fields (the_refs p) p (set_text_at s [] p)) p).
    { eapply same_inputs_trans; [apply same_inputs_refreshed|apply same_inputs_set_text]. }
    assert (Ht : error_text g (refreshed all_fields (the_refs p) p (set_text_at s [] p))
                 = Some (shown g (passes g (the_refs p) p))).
    { apply error_text_refreshed; [exact H0|apply all_fields_NoDup|apply all_fields_In]. }
    assert (Hm : g <> FTerms ->
                 marked g (refreshed all_fields (the_refs p) p (set_text_at s [] p))
                 = Some (negb (passes g (the_refs p) p))).
    { intros Hgt. apply marked_refreshed;
        [exact H0|apply all_fields_NoDup|apply all_fields_In|exact Hgt]. }
    revert Hstep Hq Ht Hm.
    generalize (refreshed all_fields (the_refs p) p (set_text_at s [] p)).
    intros q Hstep Hq Ht Hm. injection Hstep as <-.
    assert (Hq' : same_inputs (stamp_year year (on_failure q)) p).
    { eapply same_inputs_trans; [apply same_inputs_stamp_year|].
      eapply same_inputs_trans; [apply same_inputs_on_failure|exact Hq]. }
    unfold in_sync. rewrite (same_inputs_passes g (the_refs p) Hq').
    rewrite error_text_stamp_year, error_text_on_failure.
    rewrite marked_stamp_year, marked_on_failure. now split.
Qed.

Lemma display_stays_in_sync_valid :
  ready valid_page = true
  /\ FName <> FConfirm
  /\ in_sync FName (the_refs valid_page) valid_page
  /\ exists p',
       step (the_refs valid_page) (Input FEmail (u "x")) valid_page = Some p'
       /\ in_sync FName (the_refs valid_page) p'.
Proof.
  assert (Hs : in_sync FName (the_refs valid_page) valid_page).
  { split; [vm_compute; reflexivity|]. intros _. vm_compute; reflexivity. }
  split; [vm_compute; reflexivity|]. split; [discriminate|]. split; [exact Hs|].
  eexists. split; [vm_compute; reflexivity|].
  apply (@display_stays_in_sync valid_page _ (Input FEmail (u "x")) FName);
    [vm_compute; reflexivity | discriminate | exact Hs
    | intros year Hy; discriminate Hy | vm_compute; reflexivity].
Defined.

(** X3. Typing into the password field validates the password only: the
    error text and the marker of the confirm field stay as they were, even
    when the new password no longer equals the confirm value, so that
    [validateConfirm] would now reject. *)
Theorem password_input_leaves_confirm_display (p : Page) (v : JSString) :
  fields_present p = true ->
  let R := the_refs p in
  exists p',
    step R (Input FPassword v) p = Some p'
    /\ error_text FConfirm p' = error_text FConfirm p
    /\ marked FConfirm p' = marked FConfirm p
    /\ (value_of (confirmInput R) p <> v ->
        result (validateConfirm R) p' = Some false).
Proof.
  intros H R. subst R. eexists. split; [now apply step_input|].
  assert (Hid : forall e, id (with_value v e) = id e) by reflexivity.
  assert (Hids : map id (elements (type_into FPassword v p)) = map id (elements p))
    by apply ids_type_into.
  assert (H1 : fields_present (type_into FPassword v p) = true)
    by now rewrite fields_present_type_into.
  split; [|split].
  - rewrite error_text_effect_other by discriminate.
    rewrite type_into_edit. now apply error_text_edit.
  - rewrite marked_effect_other by (left; discriminate).
    rewrite type_into_edit. now apply marked_edit.
  - intros Hne. unfold result.
    pose proof (validator_run_at FConfirm
                  (same_inputs_effect FPassword
                     (passes FPassword (the_refs p) (type_into FPassword v p))
                     (type_into FPassword v p)) H1) as Hrun.
    rewrite the_refs_type_into in Hrun. cbn [validator] in Hrun. rewrite Hrun.
    cbn [option_map fst passes]. f_equal.
    pose proof (value_type_into FPassword v p H) as Hv. cbn [field_ref] in Hv.
    rewrite Hv.
    assert (Hc : value_of (confirmInput (the_refs p)) (type_into FPassword v p)
                 = value_of (confirmInput (the_refs p)) p).
    { change (confirmInput (the_refs p)) with (lookup_id (field_id FConfirm) p).
      unfold value_of. rewrite type_into_edit. now rewrite elem_edit_other. }
    rewrite Hc. now apply str_eqb_neq.
Qed.

Lemma password_input_leaves_confirm_display_valid :
  fields_present valid_page = true
  /\ let R := the_refs valid_page in
     exists p',
       step R (Input FPassword (u "hunter2hunter2")) valid_page = Some p'
       /\ error_text FConfirm p' = error_text FConfirm valid_page
       /\ marked FConfirm p' = marked FConfirm valid_page
       /\ (value_of (confirmInput R) valid_page <> u "hunter2hunter2" ->
           result (validateConfirm R) p' = Some false).
Proof.
  split; [vm_compute; reflexivity|].
  apply (password_input_leaves_confirm_display valid_page (u "hunter2hunter2")).
  vm_compute; reflexivity.
Defined.

(** ** More on the submit handler *)

Lemma not_field_or_label s h p :
  lookup_id (u "form-success") p = Some s ->
  lookup_id (field_id h) p <> Some s /\ lookup_id (label_id h) p <> Some s.
Proof.
  intros Hs. split; intros Hh; pose proof (lookup_id_inj _ _ _ Hs Hh) as Hbad;
    destruct h; vm_compute in Hbad; discriminate Hbad.
Qed.





Lemma textContent_drop_reset c fm z :
  textContent (drop_class c (reset_owned fm z)) = textContent z.
Proof.
  unfold drop_class, reset_owned.
  destruct (form_owner z) as [j|]; [destruct (Nat.eqb j fm)|];
    match goal with |- context [has_class ?c ?y] => destruct (has_class c y) end;
    reflexivity.
Qed.

Lemma error_text_on_success s fm h q :
  lookup_id (label_id h) q <> Some s ->
  error_text h (on_success s fm q) = error_text h q.
Proof.
  intros Hs. unfold error_text.
  rewrite (ids_lookup_id _ q _ (ids_on_success s fm q)).
  destruct (lookup_id (label_id h) q) as [j|]; [|reflexivity].
  cbn [elem on_success elements]. rewrite !lookup_map.
  rewrite list_lookup_alter_ne by congruence.
  destruct (elements q !! j) as [z|]; [|reflexivity].
  cbn [option_map]. now rewrite textContent_drop_reset.
Qed.

(** X5. A submit that passes validation, on a page whose form is a form
    and owns no control called [reset], returns and leaves no error text
    on any field. *)
Theorem successful_submit_clears_errors (p : Page) (year : JSString) (e : Event) :
  ready p = true ->
  reset_callable p = true ->
  let R := the_refs p in
  result (validateAll R) p = Some true ->
  exists e' p',
    onSubmit R year e p = Some (e', p')
    /\ forall f, error_text f p' = Some [].
Proof.
  intros Hr Hc R Hpass. subst R. destruct (ready_parts p Hr) as (H & _).
  destruct (onSubmit_run p year e Hr) as (s & fm & Hs & _ & Hrun). cbv zeta in Hrun.
  rewrite validateAll_result in Hpass by exact H.
  assert (Hb : forallb (fun f => passes f (the_refs p) p) all_fields = true)
    by congruence.
  rewrite Hb, Hc in Hrun. clear Hpass.
  assert (H0 : fields_present (set_text_at s [] p) = true)
    by now rewrite (same_inputs_present (same_inputs_set_text s [] p)).
  assert (Hq : same_inputs (refreshed all_fields (the_refs p) p (set_text_at s [] p)) p).
  { eapply same_inputs_trans; [apply same_inputs_refreshed|apply same_inputs_set_text]. }
  assert (Ht : forall g,
             error_text g (refreshed all_fields (the_refs p) p (set_text_at s [] p))
             = Some []).
  { intros g. rewrite error_text_refreshed
      by (exact H0 || apply all_fields_NoDup || apply all_fields_In).
    rewrite forallb_forall in Hb. now rewrite (Hb g (all_fields_In g)). }
  revert Hrun Hq Ht.
  generalize (refreshed all_fields (the_refs p) p (set_text_at s [] p)).
  intros q Hrun Hq Ht.
  eexists _, _. split; [exact Hrun|]. intros g.
  rewrite error_text_stamp_year, error_text_on_success; [apply Ht|].
  rewrite (same_inputs_lookup_id _ Hq). now apply not_field_or_label.
Qed.

Lemma successful_submit_clears_errors_valid :
  ready valid_page = true
  /\ reset_callable valid_page = true
  /\ let R := the_refs valid_page in
     result (validateAll R) valid_page = Some true
     /\ exists e' p',
          onSubmit R (u "2026") (mkEvent false) valid_page = Some (e', p')
          /\ forall f, error_text f p' = Some [].
Proof.
  split; [vm_compute; reflexivity|]. split; [vm_compute; reflexivity|].
  split; [vm_compute; reflexivity|].
  apply (successful_submit_clears_errors valid_page (u "2026") (mkEvent false));
    vm_compute; reflexivity.
Defined.




(** ** The password pattern *)

Lemma Matches_Seq_inv inp r1 r2 s s' :
  Matches inp (Seq r1 r2) s s'
  <-> exists s1, Matches inp r1 s s1 /\ Matches inp r2 s1 s'.
Proof.
  split.
  - intros Hm. inversion Hm; subst. now exists s1.
  - intros (s1 & H1 & H2). now apply M_Seq with s1.
Qed.

Lemma Matches_Look_inv inp r s s' :
  Matches inp (Lookahead r) s s' <-> s' = s /\ exists s1, Matches inp r s s1.
Proof.
  split.
  - intros Hm. inversion Hm; subst. split; [reflexivity|]. now exists s1.
  - intros [-> (s1 & H1)]. now apply M_Look with s1.
Qed.

(** A lookahead [(?=.*[q])] finds a character of the class [q] before
    any line terminator. *)
Lemma look_for_class inp (q : N -> bool) v :
  (exists s1, Matches inp (seq [Star (Class dot); Class q]) v s1)
  <-> exists d c t, v = d ++ c :: t /\ forallb dot d = true /\ q c = true.
Proof.
  split.
  - intros (s1 & Hm). apply Matches_Lang in Hm as (w & -> & L); [|reflexivity].
    apply Lang_seq_cons in L as (d & r & -> & Ld & Lr). apply Lang_star_class in Ld.
    apply Lang_seq_cons in Lr as (x & r' & -> & (c & -> & Hc) & Lr').
    apply Lang_seq_nil in Lr' as ->.
    exists d, c, s1. rewrite <- !app_assoc. now repeat split.
  - intros (d & c & t & -> & Hd & Hc). exists t.
    replace (d ++ c :: t) with ((d ++ [c]) ++ t) by now rewrite <- app_assoc.
    apply Lang_Matches; [reflexivity|].
    apply Lang_seq_cons. exists d, [c]. split; [reflexivity|].
    split; [now apply Lang_star_class|].
    apply Lang_seq_cons. exists [c], []. split; [reflexivity|].
    split; [now exists c|reflexivity].
Qed.

Lemma found_without_terminator (q : N -> bool) v :
  forallb dot v = true ->
  (exists d c t, v = d ++ c :: t /\ forallb dot d = true /\ q c = true)
  <-> existsb q v = true.
Proof.
  intros Hv. split.
  - intros (d & c & t & -> & _ & Hc). apply existsb_exists. exists c.
    split; [|exact Hc]. apply in_or_app. right. now left.
  - intros He. apply existsb_exists in He as (c & Hin & Hc).
    apply in_split in Hin as (d & t & ->). exists d, c, t.
    split; [reflexivity|]. split; [|exact Hc].
    rewrite forallb_app in Hv. now apply andb_true_iff in Hv as [Hd _].
Qed.

Lemma passwordRegex_shape v :
  test passwordRegex v = true
  <-> (8 <= length v)%nat /\ existsb is_line_terminator v = false
      /\ existsb is_letter v = true /\ existsb is_digit v = true.
Proof.
  assert (Hdot : forallb dot v = true <-> existsb is_line_terminator v = false).
  { unfold dot, cnot. induction v as [|c v IH]; simpl; [tauto|].
    rewrite andb_true_iff, orb_false_iff, negb_true_iff. tauto. }
  change passwordRegex
    with (Seq Bol
            (Seq (Lookahead (seq [Star (Class dot); Class is_letter]))
               (Seq (Lookahead (seq [Star (Class dot); Class is_digit]))
                  (seq ([AtLeast 8 (Class dot)] ++ [Eol]))))).
  rewrite test_anchored, m_correct. split.
  - intros (s' & Hm & _).
    apply Matches_Seq_inv in Hm as (s1 & H1 & Hm). apply Matches_Look_inv in H1 as [-> H1].
    apply Matches_Seq_inv in Hm as (s2 & H2 & Hm). apply Matches_Look_inv in H2 as [-> H2].
    apply Matches_items_Eol in Hm as [_ L]; [|reflexivity].
    apply Lang_seq_cons in L as (w & r & Hv & Lw & Lr).
    apply Lang_seq_nil in Lr as ->. rewrite app_nil_r in Hv. subst w.
    apply Lang_atleast_class in Lw as [Hlen Hall].
    apply look_for_class in H1. apply look_for_class in H2.
    apply (found_without_terminator is_letter v Hall) in H1.
    apply (found_without_terminator is_digit v Hall) in H2.
    split; [exact Hlen|]. split; [now apply Hdot|]. now split.
  - intros (Hlen & Hterm & Hl & Hd). apply Hdot in Hterm.
    exists []. split; [|reflexivity].
    apply Matches_Seq_inv. exists v. split.
    { apply Matches_Look_inv. split; [reflexivity|].
      apply look_for_class. now apply found_without_terminator. }
    apply Matches_Seq_inv. exists v. split.
    { apply Matches_Look_inv. split; [reflexivity|].
      apply look_for_class. now apply found_without_terminator. }
    apply Matches_items_Eol; [reflexivity|]. split; [reflexivity|].
    apply Lang_seq_cons. exists v, []. rewrite app_nil_r. split; [reflexivity|].
    split; [now apply Lang_atleast_class|reflexivity].
Qed.

(** X7. [validatePassword] accepts exactly the raw texts of at least 8
    code units that hold a letter of [A-Za-z] and a digit and no line
    terminator; on failure it shows its message. *)
Theorem password_validation (p : Page) (s : JSString) :
  fields_present p = true ->
  exists b p',
    validatePassword (the_refs p) (type_into FPassword s p) = Some (b, p')
    /\ (b = true <->
        (8 <= length s)%nat /\ existsb is_line_terminator s = false
        /\ existsb is_letter s = true /\ existsb is_digit s = true)
    /\ (b = false ->
        error_text FPassword p'
        = Some (u "Password must be 8+ characters and include letters and numbers.")).
Proof.
  intros H. destruct (validator_typed FPassword s p H) as [Hrun Htext].
  pose proof (value_type_into FPassword s p H) as Hv.
  cbn [validator passes field_ref] in Hrun, Htext, Hv. rewrite Hv in Hrun, Htext.
  eexists _, _. split; [exact Hrun|]. split; [apply passwordRegex_shape|].
  intros Hb. rewrite Htext, Hb. reflexivity.
Qed.

Lemma password_validation_blank :
  fields_present blank_page = true
  /\ exists b p',
       validatePassword (the_refs blank_page)
                        (type_into FPassword (u "abcdefg1") blank_page) = Some (b, p')
       /\ (b = true <->
           (8 <= length (u "abcdefg1"))%nat
           /\ existsb is_line_terminator (u "abcdefg1") = false
           /\ existsb is_letter (u "abcdefg1") = true
           /\ existsb is_digit (u "abcdefg1") = true)
       /\ (b = false ->
           error_text FPassword p'
           = Some (u "Password must be 8+ characters and include letters and numbers.")).
Proof.
  split; [vm_compute; reflexivity|].
  apply (password_validation blank_page (u "abcdefg1")). vm_compute; reflexivity.
Defined.

(** ** White space around a value *)

Lemma trimStart_all s : forallb is_white_space s = true -> trimStart s = [].
Proof.
  induction s as [|c s IH]; simpl; [reflexivity|].
  intros H. apply andb_true_iff in H as [Hc Hs]. rewrite Hc. now apply IH.
Qed.

Lemma trimStart_app s b :
  trimStart (s ++ b)
  = if forallb is_white_space s then trimStart b else trimStart s ++ b.
Proof.
  induction s as [|c s IH]; simpl; [reflexivity|].
  destruct (is_white_space c); simpl; [exact IH|reflexivity].
Qed.

Lemma forallb_rev (q : N -> bool) l : forallb q (rev l) = forallb q l.
Proof.
  induction l as [|c l IH]; simpl; [reflexivity|].
  rewrite forallb_app, IH. simpl. rewrite andb_true_r. apply andb_comm.
Qed.

Lemma trimEnd_app_ws x b :
  forallb is_white_space b = true -> trimEnd (x ++ b) = trimEnd x.
Proof.
  intros Hb. unfold trimEnd.
  now rewrite rev_app_distr, trimStart_app, forallb_rev, Hb.
Qed.

(** [trim] does not see the white space around a text. *)
Lemma trim_pad a s b :
  forallb is_white_space a = true -> forallb is_white_space b = true ->
  trim (a ++ s ++ b) = trim s.
Proof.
  intros Ha Hb. unfold trim. rewrite trimStart_app, Ha, trimStart_app.
  destruct (forallb is_white_space s) eqn:Hs.
  - now rewrite (trimStart_all b Hb), (trimStart_all s Hs).
  - now apply trimEnd_app_ws.
Qed.

Lemma Number_trim s s' : trim s = trim s' -> Number s = Number s'.
Proof. intros H. unfold Number. now rewrite H. Qed.

Lemma result_validator_typed f v p :
  fields_present p = true ->
  result (validator f (the_refs p)) (type_into f v p)
  = Some (passes f (the_refs p) (type_into f v p)).
Proof.
  intros H. destruct (validator_typed f v p H) as [Hrun _]. cbv zeta in Hrun.
  unfold result. now rewrite Hrun.
Qed.

(** X8. The verdicts on the name, the e-mail, the age and the website do
    not depend on white space before or after the text typed. *)
Theorem surrounding_white_space_ignored (p : Page) (f : Field) (a s b : JSString) :
  fields_present p = true ->
  In f [FName; FEmail; FAge; FWebsite] ->
  forallb is_white_space a = true ->
  forallb is_white_space b = true ->
  result (validator f (the_refs p)) (type_into f (a ++ s ++ b) p)
  = result (validator f (the_refs p)) (type_into f s p).
Proof.
  intros H Hf Ha Hb. rewrite !result_validator_typed by exact H. f_equal.
  pose proof (trim_pad a s b Ha Hb) as Ht.
  pose proof (value_type_into f (a ++ s ++ b) p H) as Hv1.
  pose proof (value_type_into f s p H) as Hv2.
  destruct Hf as [<-|[<-|[<-|[<-|[]]]]]; cbn [passes field_ref] in *;
    rewrite Hv1, Hv2, ?Ht; try reflexivity.
  f_equal. now apply Number_trim.
Qed.

Lemma surrounding_white_space_ignored_blank :
  fields_present blank_page = true
  /\ In FEmail [FName; FEmail; FAge; FWebsite]
  /\ forallb is_white_space (u "  ") = true
  /\ forallb is_white_space [9%N; 10%N] = true
  /\ result (validator FEmail (the_refs blank_page))
            (type_into FEmail (u "  " ++ u "a@b.co" ++ [9%N; 10%N]) blank_page)
     = result (validator FEmail (the_refs blank_page))
              (type_into FEmail (u "a@b.co") blank_page).
Proof.
  split; [vm_compute; reflexivity|]. split; [simpl; tauto|].
  split; [vm_compute; reflexivity|]. split; [vm_compute; reflexivity|].
  apply (@surrounding_white_space_ignored blank_page FEmail (u "  ") (u "a@b.co")
           [9%N; 10%N]);
    [vm_compute; reflexivity | simpl; tauto
    | vm_compute; reflexivity | vm_compute; reflexivity].
Defined.

(** ** Ages with a minus sign *)

Lemma round_aux_sign sx mx ex lx :
  not_positive (binary_round_aux prec64 emax64 true mx ex lx) \/ sx = false.
Proof.
  left. unfold binary_round_aux.
  destruct (shr_fexp prec64 emax64 mx ex lx) as [mrs' e'].
  destruct (shr_fexp prec64 emax64 _ e' loc_Exact) as [mrs'' e''].
  destruct (shr_m mrs''); simpl; [reflexivity| |exact I].
  now destruct (Z.leb e'' (emax64 - prec64)).
Qed.

Lemma round_decimal_minus m e : not_positive (round_decimal true m e).
Proof.
  unfold round_decimal. destruct m as [|q]; [reflexivity|].
  assert (Hr : forall mz ez lz, not_positive (binary_round_aux prec64 emax64 true mz ez lz)).
  { intros mz ez lz.
    destruct (round_aux_sign true mz ez lz) as [Hs|Hs]; [exact Hs|discriminate Hs]. }
  assert (Hb : forall x, not_positive (binary_round prec64 emax64 true x 0)).
  { intros x. unfold binary_round. destruct (shl_align _ _ _). apply Hr. }
  destruct e as [|k|k]; [apply Hb|apply Hb|].
  unfold round_ratio. destruct (SFdiv_core_binary _ _ _ _ _ _) as [[mz ez] lz]. apply Hr.
Qed.

Lemma not_positive_rejected v : not_positive v -> age_in_range v = false.
Proof.
  assert (H13 : num 13 = S754_finite false 7318349394477056 (-49))
    by (vm_compute; reflexivity).
  assert (H120 : num 120 = S754_finite false 8444249301319680 (-46))
    by (vm_compute; reflexivity).
  unfold age_in_range, num_lt, num_gt. rewrite H13, H120.
  destruct v as [s|s| |s mv ev]; cbn [not_positive]; try reflexivity;
    intros ->; reflexivity.
Qed.

Lemma Number_minus s t : trim s = ch "-" :: t -> not_positive (Number s).
Proof.
  intros Ht. unfold Number. rewrite Ht.
  assert (Hnd : parse_non_decimal (ch "-" :: t) = None).
  { destruct t as [|x ds]; reflexivity. }
  rewrite Hnd. change (N.eqb (ch "-") (ch "-")) with true. cbv iota.
  destruct (str_eqb t (u "Infinity")); [reflexivity|].
  destruct (parse_unsigned_decimal t) as [[m e]|]; [|exact I].
  apply round_decimal_minus.
Qed.

(** X9. A text that, once trimmed, starts with a minus sign is never a
    valid age, whatever follows the sign. *)
Theorem minus_sign_age_rejected (p : Page) (s t : JSString) :
  fields_present p = true ->
  trim s = ch "-" :: t ->
  result (validateAge (the_refs p)) (type_into FAge s p) = Some false.
Proof.
  intros H Ht. pose proof (result_validator_typed FAge s p H) as Hr.
  cbn [validator passes] in Hr. rewrite Hr. f_equal.
  pose proof (value_type_into FAge s p H) as Hv. cbn [field_ref] in Hv. rewrite Hv.
  apply not_positive_rejected. now apply Number_minus with t.
Qed.

Lemma minus_sign_age_rejected_blank :
  fields_present blank_page = true
  /\ trim (u " -20") = ch "-" :: u "20"
  /\ result (validateAge (the_refs blank_page)) (type_into FAge (u " -20") blank_page)
     = Some false.
Proof.
  split; [vm_compute; reflexivity|]. split; [vm_compute; reflexivity|].
  apply (@minus_sign_age_rejected blank_page (u " -20") (u "20"));
    vm_compute; reflexivity.
Defined.

(** ** The order of the validators *)

Lemma effect_as_alters f b p i j :
  lookup_id (field_id f) p = Some i -> lookup_id (label_id f) p = Some j ->
  effect f b p
  = mkPage (alter (marker f b) i (alter (with_textContent (shown f b)) j (elements p)))
           (activeElement p).
Proof.
  intros Hi Hj. unfold effect. rewrite Hi, Hj. f_equal.
  destruct f; try reflexivity. cbn [marker]. symmetry. now apply list_alter_id.
Qed.

Lemma effect_absent f b p :
  lookup_id (field_id f) p = None \/ lookup_id (label_id f) p = None ->
  effect f b p = p.
Proof.
  intros Hn. unfold effect.
  destruct (lookup_id (field_id f) p), (lookup_id (label_id f) p);
    try reflexivity; destruct Hn as [Hn|Hn]; discriminate Hn.
Qed.

Lemma effect_commute f g b c p :
  f <> g -> effect f b (effect g c p) = effect g c (effect f b p).
Proof.
  intros Hfg.
  assert (Hl : forall h d x, lookup_id x (effect h d p) = lookup_id x p).
  { intros h d x. apply same_inputs_lookup_id, same_inputs_effect. }
  destruct (lookup_id (field_id f) p) as [i|] eqn:Hi;
    [|rewrite (effect_absent f b p), (effect_absent f b (effect g c p));
      rewrite ?Hl; tauto].
  destruct (lookup_id (label_id f) p) as [j|] eqn:Hj;
    [|rewrite (effect_absent f b p), (effect_absent f b (effect g c p));
      rewrite ?Hl; tauto].
  destruct (lookup_id (field_id g) p) as [i'|] eqn:Hi';
    [|rewrite (effect_absent g c p), (effect_absent g c (effect f b p));
      rewrite ?Hl; tauto].
  destruct (lookup_id (label_id g) p) as [j'|] eqn:Hj';
    [|rewrite (effect_absent g c p), (effect_absent g c (effect f b p));
      rewrite ?Hl; tauto].
  assert (i <> i') by (intros ->; apply Hfg, field_id_inj; exact (lookup_id_inj _ _ _ Hi Hi')).
  assert (j <> j') by (intros ->; apply Hfg, label_id_inj; exact (lookup_id_inj _ _ _ Hj Hj')).
  assert (i <> j') by (intros ->; apply (field_id_not_label f g);
                        exact (lookup_id_inj _ _ _ Hi Hj')).
  assert (i' <> j) by (intros ->; apply (field_id_not_label g f);
                        exact (lookup_id_inj _ _ _ Hi' Hj)).
  rewrite (effect_as_alters f b (effect g c p) (i := i) (j := j)) by now rewrite Hl.
  rewrite (effect_as_alters g c (effect f b p) (i := i') (j := j')) by now rewrite Hl.
  rewrite (effect_as_alters g c p Hi' Hj'), (effect_as_alters f b p Hi Hj).
  cbn [elements activeElement]. f_equal.
  apply list_eq. intros k. rewrite !list_lookup_alter.
  repeat case_decide; subst; try congruence; reflexivity.
Qed.

(** X10. Two different validators commute: run in either order they
    return the same booleans and leave the same page. *)
Theorem validators_commute (p : Page) (f g : Field) :
  fields_present p = true ->
  f <> g ->
  let R := the_refs p in
  exists a b p',
    (do x <- validator f R; do y <- validator g R; ret (x, y)) p = Some ((a, b), p')
    /\ (do y <- validator g R; do x <- validator f R; ret (x, y)) p = Some ((a, b), p').
Proof.
  intros H Hfg R. subst R.
  exists (passes f (the_refs p) p), (passes g (the_refs p) p),
         (effect g (passes g (the_refs p) p) (effect f (passes f (the_refs p) p) p)).
  split.
  - rewrite (bind_run _ _ _ (validator_run f p H)).
    now rewrite (bind_run _ _ _ (validator_run_at g (same_inputs_effect f _ p) H)).
  - rewrite (bind_run _ _ _ (validator_run g p H)).
    rewrite (bind_run _ _ _ (validator_run_at f (same_inputs_effect g _ p) H)).
    unfold ret. now rewrite (@effect_commute f g _ _ p Hfg).
Qed.

Lemma validators_commute_blank :
  fields_present blank_page = true
  /\ FName <> FTerms
  /\ let R := the_refs blank_page in
     exists a b p',
       (do x <- validator FName R; do y <- validator FTerms R; ret (x, y)) blank_page
       = Some ((a, b), p')
       /\ (do y <- validator FTerms R; do x <- validator FName R; ret (x, y)) blank_page
          = Some ((a, b), p').
Proof.
  split; [vm_compute; reflexivity|]. split; [discriminate|].
  apply (@validators_commute blank_page FName FTerms);
    [vm_compute; reflexivity|discriminate].
Defined.

(** ** Tokens of a class list *)

Lemma existsb_remove_other c d cl :
  c <> d -> existsb (str_eqb c) (remove_token d cl) = existsb (str_eqb c) cl.
Proof.
  intros Hcd. unfold remove_token. induction cl as [|a cl IH]; [reflexivity|].
  cbn [List.filter existsb]. destruct (str_eqb d a) eqn:E; cbn [negb existsb].
  - apply str_eqb_eq in E. subst a. now rewrite (str_eqb_neq Hcd).
  - now rewrite IH.
Qed.

Lemma existsb_add_other c d cl :
  c <> d -> existsb (str_eqb c) (add_token d cl) = existsb (str_eqb c) cl.
Proof.
  intros Hcd. unfold add_token. destruct (existsb (str_eqb d) cl); [reflexivity|].
  rewrite existsb_app. cbn [existsb]. rewrite (str_eqb_neq Hcd).
  now rewrite !orb_false_r.
Qed.

Lemma remove_add d cl : remove_token d (add_token d cl) = remove_token d cl.
Proof.
  unfold add_token. destruct (existsb (str_eqb d) cl); [reflexivity|].
  unfold remove_token. rewrite List.filter_app. cbn [List.filter].
  rewrite str_eqb_refl. cbn [negb]. apply app_nil_r.
Qed.

Lemma remove_remove d cl : remove_token d (remove_token d cl) = remove_token d cl.
Proof.
  unfold remove_token. induction cl as [|a cl IH]; [reflexivity|].
  cbn [List.filter]. destruct (negb (str_eqb d a)) eqn:E; [|exact IH].
  cbn [List.filter]. now rewrite E, IH.
Qed.

Lemma add_add d cl : add_token d (add_token d cl) = add_token d cl.
Proof. unfold add_token at 1. now rewrite has_class_add. Qed.

Lemma toggle_flips c cl :
  fst (Theme.toggle_token c cl) = negb (existsb (str_eqb c) cl)
  /\ existsb (str_eqb c) (snd (Theme.toggle_token c cl)) = negb (existsb (str_eqb c) cl).
Proof.
  unfold Theme.toggle_token. destruct (existsb (str_eqb c) cl) eqn:E; cbn [fst snd negb].
  - split; [reflexivity|apply has_class_remove].
  - split; [reflexivity|]. rewrite existsb_app. cbn [existsb].
    now rewrite str_eqb_refl, orb_true_r.
Qed.

Lemma toggle_other c d cl :
  c <> d ->
  existsb (str_eqb c) (snd (Theme.toggle_token d cl)) = existsb (str_eqb c) cl.
Proof.
  intros Hcd. unfold Theme.toggle_token.
  destruct (existsb (str_eqb d) cl); cbn [snd].
  - now apply existsb_remove_other.
  - rewrite existsb_app. cbn [existsb]. rewrite (str_eqb_neq Hcd).
    now rewrite !orb_false_r.
Qed.

(** ** The tabs *)

Lemma has_class_strip c sel d e :
  c <> d -> has_class c (strip_class sel d e) = has_class c e.
Proof.
  intros Hcd. unfold strip_class. destruct (has_class sel e); [|reflexivity].
  unfold has_class. cbn [with_classList classList]. now apply existsb_remove_other.
Qed.

Lemma has_class_add_class c d e :
  c <> d -> has_class c (add_class d e) = has_class c e.
Proof.
  intros Hcd. unfold has_class, add_class. cbn [with_classList classList].
  now apply existsb_add_other.
Qed.

Lemma has_class_clicked c b t i e :
  c <> u "active" -> has_class c (clicked b t i e) = has_class c e.
Proof.
  intros Hc. unfold clicked. cbv zeta.
  destruct (i =? t)%nat, (i =? b)%nat;
    repeat first [rewrite (has_class_add_class _ Hc) | rewrite (has_class_strip _ _ Hc)];
    reflexivity.
Qed.

Lemma active_strip sel e :
  active (strip_class sel (u "active") e) = (negb (has_class sel e) && active e)%bool.
Proof.
  unfold strip_class, active. destruct (has_class sel e) eqn:E; [|reflexivity].
  unfold has_class. cbn [with_classList classList negb andb]. apply has_class_remove.
Qed.

Lemma active_add_class e : active (add_class (u "active") e) = true.
Proof. unfold active, has_class, add_class. cbn [with_classList classList]. apply has_class_add. Qed.

Lemma active_clicked b t i e :
  active (clicked b t i e)
  = ((i =? t)%nat
     || negb (tab_content e) && ((i =? b)%nat || negb (tab_btn e) && active e))%bool.
Proof.
  assert (Hc : u "tab-content" <> u "active") by (intros H; cbv in H; discriminate H).
  unfold clicked, tab_content, tab_btn. cbv zeta.
  destruct (i =? t)%nat; [now rewrite active_add_class|].
  rewrite active_strip. cbn [orb].
  destruct (i =? b)%nat.
  - rewrite active_add_class, has_class_add_class, has_class_strip by exact Hc.
    reflexivity.
  - now rewrite active_strip, has_class_strip by exact Hc.
Qed.

Lemma inputs_strip sel c e : inputs (strip_class sel c e) = inputs e.
Proof. unfold strip_class. now destruct (has_class sel e). Qed.

Lemma inputs_add_class c e : inputs (add_class c e) = inputs e.
Proof. reflexivity. Qed.

Lemma inputs_clicked b t i e : inputs (clicked b t i e) = inputs e.
Proof.
  unfold clicked. cbv zeta.
  destruct (i =? t)%nat, (i =? b)%nat;
    repeat (rewrite inputs_add_class || rewrite inputs_strip); reflexivity.
Qed.

Lemma textContent_strip sel c e : textContent (strip_class sel c e) = textContent e.
Proof. unfold strip_class. now destruct (has_class sel e). Qed.

Lemma textContent_add_class c e : textContent (add_class c e) = textContent e.
Proof. reflexivity. Qed.

Lemma textContent_clicked b t i e : textContent (clicked b t i e) = textContent e.
Proof.
  unfold clicked. cbv zeta.
  destruct (i =? t)%nat, (i =? b)%nat;
    repeat (rewrite textContent_add_class || rewrite textContent_strip); reflexivity.
Qed.

Lemma click_elements_lookup b t l i :
  click_elements b t l !! i = option_map (clicked b t i) (l !! i).
Proof.
  unfold click_elements. rewrite list_lookup_alter.
  destruct (decide (t = i)) as [->|Hti].
  - rewrite lookup_map, list_lookup_alter.
    destruct (decide (b = i)) as [->|Hbi]; rewrite lookup_map;
      destruct (l !! i) as [e|]; try reflexivity; cbn [option_map fmap option_fmap];
      unfold option_map, clicked; rewrite Nat.eqb_refl.
    + reflexivity.
    + assert (Hn : (i =? b)%nat = false) by (apply Nat.eqb_neq; congruence).
      now rewrite Hn.
  - assert (Ht : (i =? t)%nat = false) by (apply Nat.eqb_neq; congruence).
    rewrite lookup_map, list_lookup_alter.
    destruct (decide (b = i)) as [->|Hbi]; rewrite lookup_map;
      destruct (l !! i) as [e|]; try reflexivity; cbn [option_map fmap option_fmap];
      unfold option_map, clicked; rewrite Ht.
    + now rewrite Nat.eqb_refl.
    + assert (Hn : (i =? b)%nat = false) by (apply Nat.eqb_neq; congruence).
      now rewrite Hn.
Qed.

Lemma click_elements_length b t l : length (click_elements b t l) = length l.
Proof. unfold click_elements. now rewrite length_alter, List.length_map, length_alter, List.length_map. Qed.

Lemma click_elements_inputs b t l : map inputs (click_elements b t l) = map inputs l.
Proof.
  apply list_eq. intros i. rewrite !lookup_map, click_elements_lookup.
  destruct (l !! i) as [e|]; [|reflexivity]. cbn [option_map]. now rewrite inputs_clicked.
Qed.

Lemma ids_strip sel c l : map id (map (strip_class sel c) l) = map id l.
Proof.
  rewrite map_map. apply map_ext. intros e. unfold strip_class.
  now destruct (has_class sel e).
Qed.

Lemma tabClick_run b t target p :
  (b < length (elements p))%nat ->
  lookup_id target p = Some t ->
  tabClick (Some b) target p
  = Some (tt, mkPage (click_elements b t (elements p)) (activeElement p)).
Proof.
  intros Hb Ht. pose proof (lookup_id_lt _ _ Ht) as Hlt.
  unfold tabClick, bind at 1, remove_class_from at 1.
  unfold bind at 1, classList_add at 1.
  rewrite update_run by (cbn [elements]; now rewrite List.length_map).
  cbn [elements activeElement].
  unfold bind at 1, remove_class_from.
  unfold bind, getElementById. cbn [elements activeElement].
  set (l3 := map _ (alter _ b _)).
  assert (Hids : map id l3 = map id (elements p)).
  { subst l3. rewrite ids_strip, ids_alter by reflexivity. apply ids_strip. }
  rewrite (find_id_ids target _ _ Hids). fold (lookup_id target p). rewrite Ht.
  unfold classList_add. rewrite update_run.
  - reflexivity.
  - cbn [elements]. subst l3.
    now rewrite List.length_map, length_alter, List.length_map.
Qed.

Lemma tabClick_absent b target p :
  lookup_id target p = None -> tabClick (Some b) target p = None.
Proof.
  intros Ht. unfold tabClick, bind at 1, remove_class_from at 1.
  unfold bind at 1, classList_add at 1, update at 1. cbn [elements activeElement].
  destruct (map _ (elements p) !! b) as [e|]; [|reflexivity].
  unfold bind at 1, remove_class_from.
  unfold bind, getElementById. cbn [elements activeElement].
  set (l3 := map _ (alter _ b _)).
  assert (Hids : map id l3 = map id (elements p)).
  { subst l3. rewrite ids_strip, ids_alter by reflexivity. apply ids_strip. }
  rewrite (find_id_ids target _ _ Hids). fold (lookup_id target p). now rewrite Ht.
Qed.

(** X11. A click on a tab whose [data-tab] is the id of an element, its
    panel, changes nothing but the [active] class: afterwards the panel is active, any other element
    with class [tab-content] is not, the button is active unless it is
    such an element, any other element with class [tab-btn] is not, and
    the rest of the page keeps its [active] class as it was. *)
Theorem tab_click_outcome (p : Page) (b t : nat) (target : JSString) :
  (b < length (elements p))%nat ->
  lookup_id target p = Some t ->
  exists p',
    tabClick (Some b) target p = Some (tt, p')
    /\ activeElement p' = activeElement p
    /\ length (elements p') = length (elements p)
    /\ forall i e, elements p !! i = Some e ->
         exists e', elements p' !! i = Some e'
           /\ inputs e' = inputs e
           /\ textContent e' = textContent e
           /\ (forall c, c <> u "active" -> has_class c e' = has_class c e)
           /\ active e'
              = ((i =? t)%nat
                 || negb (tab_content e)
                    && ((i =? b)%nat || negb (tab_btn e) && active e))%bool.
Proof.
  intros Hb Ht. eexists. split; [exact (@tabClick_run b t target p Hb Ht)|].
  cbn [elements activeElement]. split; [reflexivity|].
  split; [apply click_elements_length|].
  intros i e He. exists (clicked b t i e). rewrite click_elements_lookup, He.
  split; [reflexivity|]. split; [apply inputs_clicked|].
  split; [apply textContent_clicked|].
  split; [intros c Hc; now apply has_class_clicked|apply active_clicked].
Qed.

Lemma tab_click_outcome_tabs :
  (18 < length (elements tabs_page))%nat
  /\ lookup_id (u "tab-two") tabs_page = Some 20%nat
  /\ exists p',
       tabClick (Some 18%nat) (u "tab-two") tabs_page = Some (tt, p')
       /\ activeElement p' = activeElement tabs_page
       /\ length (elements p') = length (elements tabs_page)
       /\ forall i e, elements tabs_page !! i = Some e ->
            exists e', elements p' !! i = Some e'
              /\ inputs e' = inputs e
              /\ textContent e' = textContent e
              /\ (forall c, c <> u "active" -> has_class c e' = has_class c e)
              /\ active e'
                 = ((i =? 20)%nat
                    || negb (tab_content e)
                       && ((i =? 18)%nat || negb (tab_btn e) && active e))%bool.
Proof.
  split; [vm_compute; lia|]. split; [vm_compute; reflexivity|].
  apply (@tab_click_outcome tabs_page 18%nat 20%nat (u "tab-two"));
    [vm_compute; lia|vm_compute; reflexivity].
Defined.

Lemma tabClick_out_of_range b target p :
  (length (elements p) <= b)%nat -> tabClick (Some b) target p = None.
Proof.
  intros Hb. unfold tabClick, bind at 1, remove_class_from at 1.
  unfold bind at 1, classList_add at 1, update at 1. cbn [elements activeElement].
  rewrite lookup_ge_None_2; [reflexivity|]. now rewrite List.length_map.
Qed.

Lemma tabClick_Some_inv b target p p' :
  tabClick (Some b) target p = Some (tt, p') ->
  exists t, (b < length (elements p))%nat /\ lookup_id target p = Some t
            /\ p' = mkPage (click_elements b t (elements p)) (activeElement p).
Proof.
  intros H. destruct (lookup_id target p) as [t|] eqn:Ht;
    [|rewrite (@tabClick_absent b _ p Ht) in H; discriminate H].
  destruct (le_lt_dec (length (elements p)) b) as [Hge|Hlt];
    [rewrite (@tabClick_out_of_range b target p Hge) in H; discriminate H|].
  exists t. rewrite (@tabClick_run b t target p Hlt Ht) in H. injection H as <-. now repeat split.
Qed.

(** X12. A click on a tab throws exactly when [getElementById] finds no
    element for its [data-tab]: when no element of the page has that id,
    as is the case of the empty [data-tab] on every page. *)
Theorem tab_click_throws (p : Page) (b : nat) (target : JSString) :
  (b < length (elements p))%nat ->
  tabClick (Some b) target p = None <-> lookup_id target p = None.
Proof.
  intros Hb. split.
  - intros H. destruct (lookup_id target p) as [t|] eqn:Ht; [|reflexivity].
    rewrite (@tabClick_run b t target p Hb Ht) in H. discriminate H.
  - apply tabClick_absent.
Qed.

Lemma tab_click_throws_tabs :
  (18 < length (elements tabs_page))%nat
  /\ (tabClick (Some 18%nat) (u "tab-three") tabs_page = None
      <-> lookup_id (u "tab-three") tabs_page = None).
Proof.
  split; [vm_compute; lia|].
  apply (@tab_click_throws tabs_page 18%nat (u "tab-three")). vm_compute; lia.
Defined.

(** A tab whose [data-tab] is empty throws, even on a page that has an
    element without id. *)
Lemma empty_data_tab_throws :
  lookup_id [] idless_page = None
  /\ tabClick (Some 18%nat) [] idless_page = None.
Proof. split; vm_compute; reflexivity. Qed.

Lemma same_inputs_click b t p :
  same_inputs (mkPage (click_elements b t (elements p)) (activeElement p)) p.
Proof. unfold same_inputs. cbn [elements]. apply click_elements_inputs. Qed.

Lemma elem_click b t p r :
  elem r (mkPage (click_elements b t (elements p)) (activeElement p))
  = match r with
    | Some i => option_map (clicked b t i) (elem r p)
    | None => None
    end.
Proof. destruct r as [i|]; [|reflexivity]. cbn [elem elements]. apply click_elements_lookup. Qed.

(** X13. A click on a tab does not touch the form: every validator gives
    the verdict it gave before, and the error texts and the [invalid]
    marks are the same. *)
Theorem tab_click_leaves_form (p p' : Page) (b : nat) (target : JSString) (f : Field) :
  fields_present p = true ->
  tabClick (Some b) target p = Some (tt, p') ->
  result (validator f (the_refs p')) p' = result (validator f (the_refs p)) p
  /\ error_text f p' = error_text f p
  /\ marked f p' = marked f p.
Proof.
  intros Hp H. destruct (@tabClick_Some_inv _ _ _ _ H) as (t & Hb & Ht & ->).
  pose proof (same_inputs_click b t p) as Hs.
  split; [|split].
  - rewrite !result_validator; [|exact Hp|now rewrite (same_inputs_present Hs)].
    now rewrite (same_inputs_refs Hs), (same_inputs_passes _ _ Hs).
  - unfold error_text. rewrite (same_inputs_lookup_id _ Hs), elem_click.
    destruct (lookup_id (label_id f) p) as [j|]; [|reflexivity].
    destruct (elem (Some j) p) as [e|]; [|reflexivity].
    cbn [option_map]. now rewrite textContent_clicked.
  - unfold marked. rewrite (same_inputs_lookup_id _ Hs), elem_click.
    destruct (lookup_id (field_id f) p) as [j|]; [|reflexivity].
    destruct (elem (Some j) p) as [e|]; [|reflexivity].
    cbn [option_map]. rewrite has_class_clicked; [reflexivity|].
    intros Hc. cbv in Hc. discriminate Hc.
Qed.

Lemma tab_click_leaves_form_tabs :
  let p' := mkPage (click_elements 18 20 (elements tabs_page)) None in
  fields_present tabs_page = true
  /\ tabClick (Some 18%nat) (u "tab-two") tabs_page = Some (tt, p')
  /\ result (validator FEmail (the_refs p')) p'
     = result (validator FEmail (the_refs tabs_page)) tabs_page
  /\ error_text FEmail p' = error_text FEmail tabs_page
  /\ marked FEmail p' = marked FEmail tabs_page.
Proof.
  intros p'. split; [vm_compute; reflexivity|]. split; [vm_compute; reflexivity|].
  apply (@tab_click_leaves_form tabs_page p' 18%nat (u "tab-two") FEmail);
    vm_compute; reflexivity.
Defined.

(** ** A second click on the same tab *)

Lemma existsb_strip_tokens c sel d cl :
  c <> d -> existsb (str_eqb c) (strip_tokens sel d cl) = existsb (str_eqb c) cl.
Proof.
  intros Hcd. unfold strip_tokens. destruct (existsb (str_eqb sel) cl); [|reflexivity].
  now apply existsb_remove_other.
Qed.

Lemma strip_class_tokens sel c e :
  strip_class sel c e = with_classList (strip_tokens sel c (classList e)) e.
Proof.
  unfold strip_class, strip_tokens, has_class.
  destruct (existsb (str_eqb sel) (classList e)); [reflexivity|now destruct e].
Qed.

Lemma clicked_tokens b t i e :
  clicked b t i e = with_classList (clicked_classes b t i (classList e)) e.
Proof.
  unfold clicked, clicked_classes, add_class. cbv zeta. rewrite !strip_class_tokens.
  destruct (i =? t)%nat, (i =? b)%nat; cbn [classList with_classList];
    rewrite ?strip_class_tokens; reflexivity.
Qed.

Lemma clicked_classes_twice b t i cl :
  clicked_classes b t i (clicked_classes b t i cl) = clicked_classes b t i cl.
Proof.
  assert (Hb : u "tab-btn" <> u "active") by (intros H; cbv in H; discriminate H).
  assert (Hc : u "tab-content" <> u "active") by (intros H; cbv in H; discriminate H).
  unfold clicked_classes. cbv zeta.
  destruct (existsb (str_eqb (u "tab-btn")) cl) eqn:B,
           (existsb (str_eqb (u "tab-content")) cl) eqn:C,
           (i =? t)%nat, (i =? b)%nat;
    unfold strip_tokens;
    repeat (rewrite ?(existsb_add_other _ Hb), ?(existsb_add_other _ Hc),
              ?(existsb_remove_other _ Hb), ?(existsb_remove_other _ Hc), ?B, ?C;
            cbv beta iota);
    repeat first [rewrite remove_add | rewrite remove_remove | rewrite add_add];
    reflexivity.
Qed.

Lemma clicked_twice b t i e : clicked b t i (clicked b t i e) = clicked b t i e.
Proof.
  rewrite (clicked_tokens b t i e), clicked_tokens. cbn [classList with_classList].
  rewrite clicked_classes_twice. now destruct e.
Qed.

Lemma click_elements_twice b t l :
  click_elements b t (click_elements b t l) = click_elements b t l.
Proof.
  apply list_eq. intros i. rewrite !click_elements_lookup.
  destruct (l !! i) as [e|]; [|reflexivity]. cbn [option_map]. now rewrite clicked_twice.
Qed.

(** X14. Clicking again on the tab that has just been clicked changes
    nothing. *)
Theorem tab_click_idempotent (p p' : Page) (b : nat) (target : JSString) :
  tabClick (Some b) target p = Some (tt, p') ->
  tabClick (Some b) target p' = Some (tt, p').
Proof.
  intros H. destruct (@tabClick_Some_inv _ _ _ _ H) as (t & Hb & Ht & ->).
  pose proof (same_inputs_click b t p) as Hs.
  rewrite (@tabClick_run b t target).
  - cbn [elements activeElement]. now rewrite click_elements_twice.
  - cbn [elements]. now rewrite click_elements_length.
  - now rewrite (same_inputs_lookup_id _ Hs).
Qed.

Lemma tab_click_idempotent_tabs :
  let p' := mkPage (click_elements 18 20 (elements tabs_page)) None in
  tabClick (Some 18%nat) (u "tab-two") tabs_page = Some (tt, p')
  /\ tabClick (Some 18%nat) (u "tab-two") p' = Some (tt, p').
Proof.
  intros p'. split; [vm_compute; reflexivity|].
  apply (@tab_click_idempotent tabs_page p' 18%nat (u "tab-two")).
  vm_compute; reflexivity.
Defined.

(** ** The theme toggle *)

Lemma theme_onClick_dark s : Theme.is_dark (Theme.onClick s) = negb (Theme.is_dark s).
Proof.
  unfold Theme.onClick, Theme.is_dark.
  pose proof (toggle_flips (u "dark") (Theme.body_classList s)) as [_ Hs].
  destruct (Theme.toggle_token (u "dark") (Theme.body_classList s)) as [isDark cl].
  exact Hs.
Qed.

Lemma theme_onClick_shown s :
  let d := negb (Theme.is_dark s) in
  Theme.themeBtn_textContent (Theme.onClick s)
  = (if d then Theme.light_mode_label else Theme.dark_mode_label)
  /\ Theme.themeBtn_aria_pressed (Theme.onClick s) = Some (Theme.String_of_bool d)
  /\ Theme.localStorage_theme (Theme.onClick s) = Some (if d then u "dark" else u "light").
Proof.
  unfold Theme.onClick, Theme.is_dark.
  pose proof (toggle_flips (u "dark") (Theme.body_classList s)) as [Hf _].
  destruct (Theme.toggle_token (u "dark") (Theme.body_classList s)) as [isDark cl].
  cbn [fst] in Hf. subst isDark. now repeat split.
Qed.

(** X15. A click on the theme button flips the [dark] class of the body
    and leaves the other classes alone; the label, [aria-pressed] and the
    stored preference all describe the theme the click has set. *)
Theorem theme_click_consistent (s : Theme.State) :
  let s' := Theme.onClick s in
  Theme.is_dark s' = negb (Theme.is_dark s)
  /\ Theme.themeBtn_textContent s'
     = (if Theme.is_dark s' then Theme.light_mode_label else Theme.dark_mode_label)
  /\ Theme.themeBtn_aria_pressed s' = Some (Theme.String_of_bool (Theme.is_dark s'))
  /\ Theme.localStorage_theme s'
     = Some (if Theme.is_dark s' then u "dark" else u "light")
  /\ forall c, c <> u "dark" ->
       existsb (str_eqb c) (Theme.body_classList s')
       = existsb (str_eqb c) (Theme.body_classList s).
Proof.
  intros s'. subst s'. rewrite theme_onClick_dark.
  destruct (theme_onClick_shown s) as (Ht & Ha & Hl). cbv zeta in Ht, Ha, Hl.
  repeat split; try assumption.
  intros c Hc. unfold Theme.onClick.
  pose proof (@toggle_other c (u "dark") (Theme.body_classList s) Hc) as Ho.
  destruct (Theme.toggle_token (u "dark") (Theme.body_classList s)) as [isDark cl].
  exact Ho.
Qed.

(** X16. The preference survives a reload: when the page comes without
    the [dark] class and the store holds what the last click wrote, the
    load handler puts the body in the theme that click had set, and in
    the dark theme also restores the label and [aria-pressed]. *)
Theorem theme_survives_reload (s s0 : Theme.State) :
  Theme.is_dark s0 = false ->
  Theme.localStorage_theme s0 = Theme.localStorage_theme (Theme.onClick s) ->
  Theme.is_dark (Theme.onLoad s0) = Theme.is_dark (Theme.onClick s)
  /\ (Theme.is_dark (Theme.onClick s) = true ->
      Theme.themeBtn_textContent (Theme.onLoad s0)
      = Theme.themeBtn_textContent (Theme.onClick s)
      /\ Theme.themeBtn_aria_pressed (Theme.onLoad s0)
         = Theme.themeBtn_aria_pressed (Theme.onClick s)).
Proof.
  intros H0 Hst. destruct (theme_onClick_shown s) as (Ht & Ha & Hl).
  cbv zeta in Ht, Ha, Hl. rewrite Ht, Ha, theme_onClick_dark. rewrite Hl in Hst.
  unfold Theme.onLoad. rewrite Hst.
  destruct (negb (Theme.is_dark s)).
  - change (str_eqb (u "dark") (u "dark")) with true. cbv iota.
    unfold Theme.is_dark at 1.
    cbn [Theme.body_classList Theme.themeBtn_textContent Theme.themeBtn_aria_pressed].
    rewrite has_class_add. now split.
  - change (str_eqb (u "light") (u "dark")) with false. cbv iota.
    split; [exact H0|discriminate].
Qed.

Lemma theme_survives_reload_served :
  let s := Theme.served Theme.dark_mode_label None None in
  let s0 := Theme.served Theme.dark_mode_label None (Some (u "dark")) in
  Theme.is_dark s0 = false
  /\ Theme.localStorage_theme s0 = Theme.localStorage_theme (Theme.onClick s)
  /\ Theme.is_dark (Theme.onLoad s0) = Theme.is_dark (Theme.onClick s)
  /\ (Theme.is_dark (Theme.onClick s) = true ->
      Theme.themeBtn_textContent (Theme.onLoad s0)
      = Theme.themeBtn_textContent (Theme.onClick s)
      /\ Theme.themeBtn_aria_pressed (Theme.onLoad s0)
         = Theme.themeBtn_aria_pressed (Theme.onClick s)).
Proof.
  intros s s0. split; [reflexivity|]. split; [vm_compute; reflexivity|].
  apply (@theme_survives_reload s s0); [reflexivity|vm_compute; reflexivity].
Defined.

(** X17. Two clicks in a row give the body back the classes it had,
    [dark] included, though possibly in another order. *)
Theorem theme_double_click (s : Theme.State) (c : JSString) :
  existsb (str_eqb c) (Theme.body_classList (Theme.onClick (Theme.onClick s)))
  = existsb (str_eqb c) (Theme.body_classList s).
Proof.
  destruct (str_eqb c (u "dark")) eqn:E.
  - apply str_eqb_eq in E. subst c.
    change (Theme.is_dark (Theme.onClick (Theme.onClick s)) = Theme.is_dark s).
    rewrite !theme_onClick_dark. apply negb_involutive.
  - assert (Hc : c <> u "dark") by (intros ->; rewrite str_eqb_refl in E; discriminate E).
    assert (Ho : forall x, existsb (str_eqb c) (Theme.body_classList (Theme.onClick x))
                           = existsb (str_eqb c) (Theme.body_classList x)).
    { intros x. unfold Theme.onClick.
      pose proof (@toggle_other c (u "dark") (Theme.body_classList x) Hc) as Ho.
      destruct (Theme.toggle_token (u "dark") (Theme.body_classList x)) as [isDark cl].
      exact Ho. }
    now rewrite !Ho.
Qed.

(** ** The FAQ *)

(** X18. A click on a question that has a next sibling flips three
    things at once: whether [aria-expanded] reads [true], the [open]
    class of the question and the [open] class of the answer.  So a
    question whose attribute and classes agree keeps them in agreement,
    and one whose attribute and classes disagree never recovers. *)
Theorem faq_click_flips (it : Faq.Item) (a : list JSString) :
  Faq.answer_classList it = Some a ->
  exists it',
    Faq.onClick it = Some it'
    /\ Faq.attr_is (Faq.aria_expanded it') (u "true")
       = negb (Faq.attr_is (Faq.aria_expanded it) (u "true"))
    /\ Faq.is_open (Faq.q_classList it') = negb (Faq.is_open (Faq.q_classList it))
    /\ option_map Faq.is_open (Faq.answer_classList it') = Some (negb (Faq.is_open a)).
Proof.
  intros Ha. unfold Faq.onClick. rewrite Ha. eexists. split; [reflexivity|].
  cbn [Faq.aria_expanded Faq.q_classList Faq.answer_classList option_map].
  unfold Faq.is_open.
  rewrite (proj2 (toggle_flips (u "open") (Faq.q_classList it))).
  rewrite (proj2 (toggle_flips (u "open") a)).
  split; [|now split].
  now destruct (Faq.attr_is (Faq.aria_expanded it) (u "true")).
Qed.

Lemma faq_click_flips_closed :
  let it := Faq.mkItem (Some (u "false")) [u "faq-question"] (Some [u "faq-answer"]) in
  Faq.answer_classList it = Some [u "faq-answer"]
  /\ exists it',
       Faq.onClick it = Some it'
       /\ Faq.attr_is (Faq.aria_expanded it') (u "true")
          = negb (Faq.attr_is (Faq.aria_expanded it) (u "true"))
       /\ Faq.is_open (Faq.q_classList it') = negb (Faq.is_open (Faq.q_classList it))
       /\ option_map Faq.is_open (Faq.answer_classList it')
          = Some (negb (Faq.is_open [u "faq-answer"])).
Proof.
  intros it. split; [reflexivity|].
  apply (@faq_click_flips it [u "faq-answer"]). reflexivity.
Defined.
